(** * DualPipe: a shallow embedding of the per-rank scheduler of
    [dualpipe/dualpipe.py] and proofs about its eight-phase schedule.

    One rank of the pipeline is modelled.  The instance fields computed by
    [DualPipe.__init__] form the record [dualpipe]; the per-step fields
    ([_reset_states]) form the record [state].  Python exceptions become
    the [Err] outcome of a state/error monad which keeps the state reached
    when the exception is raised.  Tensors are opaque: a micro-batch (a
    [List[torch.Tensor]]) is a [chunk] identifier, and a queue slot that the
    code overwrites with [None] is an [option chunk].

    A ghost [trace] records the method calls of the scheduler, the
    point-to-point descriptors that are posted, the compute calls, and a
    snapshot of the cursors after each cursor update. *)

From Stdlib Require Import List Arith Lia Bool ZArith.
Import ListNotations.

(* ------------------------------------------------------------------ *)
(** ** Python helpers *)

(** [l[i]] for a Python list, negative indices counting from the end. *)
Definition py_index {A} (l : list A) (i : Z) : option A :=
  let j := if (i <? 0)%Z then (Z.of_nat (length l) + i)%Z else i in
  if (j <? 0)%Z then None else nth_error l (Z.to_nat j).

(** [l[k] = v]; [None] stands for the [IndexError] of an index out of range. *)
Fixpoint set_nth {A} (l : list A) (k : nat) (v : A) : option (list A) :=
  match l, k with
  | [], _ => None
  | _ :: t, 0 => Some (v :: t)
  | x :: t, S k' => option_map (cons x) (set_nth t k' v)
  end.

(* ------------------------------------------------------------------ *)
(** ** [DualPipe.__init__]: the topology of one rank *)

Record dualpipe := mkDualPipe {
  num_ranks : nat;
  rank : nat;
  first_rank : option nat;
  prev_rank : option nat;
  next_rank : option nat;
  last_rank : option nat;
  is_first_rank : bool;
  is_last_rank : bool;
  is_in_second_half : bool;
  is_middle_rank : bool;
  overlaped_forward_backward : bool
}.

(** The loop [for i in range(num_ranks): rank_inverse_mapping[rank_mapping[i]] = i]. *)
Fixpoint fill_inverse (rank_mapping : list nat) (inv : list (option nat))
    (i cnt : nat) : option (list (option nat)) :=
  match cnt with
  | 0 => Some inv
  | S c =>
      match nth_error rank_mapping i with
      | None => None
      | Some j =>
          match set_nth inv j (Some i) with
          | None => None
          | Some inv' => fill_inverse rank_mapping inv' (S i) c
          end
      end
  end.

(** [DualPipe.__init__].  The two shard modules are given by their Python
    types [ty0], [ty1] (type identities) and [has_attr t] tells whether type
    [t] defines [overlaped_forward_backward].  [size] and [grank] are
    [group.size()] and [group.rank()].  [None] is an exception (an index out
    of range).  The device assertion is not modelled. *)
Definition init (ty0 ty1 : nat) (has_attr : nat -> bool) (size grank : nat)
    (rank_mapping : option (list nat)) : option dualpipe :=
  let overlaped := Nat.eqb ty0 ty1 && has_attr ty0 in
  let mapping := match rank_mapping with
                 | None => seq 0 size
                 | Some m => m
                 end in
  match fill_inverse mapping (repeat None (size + 1)) 0 size with
  | None => None
  | Some inv =>
      match nth_error mapping grank with
      | None => None
      | Some r =>
          let zr := Z.of_nat r in
          let zn := Z.of_nat size in
          match py_index inv 0, py_index inv (zr - 1)%Z,
                py_index inv (zr + 1)%Z, py_index inv (zn - 1)%Z with
          | Some fr, Some pr, Some nr, Some lr =>
              Some {| num_ranks := size;
                      rank := r;
                      first_rank := fr;
                      prev_rank := pr;
                      next_rank := nr;
                      last_rank := lr;
                      is_first_rank := (zr =? 0)%Z;
                      is_last_rank := (zr =? zn - 1)%Z;
                      is_in_second_half := (zn / 2 <=? zr)%Z;
                      is_middle_rank :=
                        (2 <? zn)%Z && ((zr =? zn / 2 - 1)%Z || (zr =? zn / 2)%Z);
                      overlaped_forward_backward := overlaped |}
          | _, _, _, _ => None
          end
      end
  end.

(* ------------------------------------------------------------------ *)
(** ** Per-step state *)

(** A phase index ([0] or [1] in the source) is a [bool]: [false] is [0],
    [true] is [1]; [phase ^= is_in_second_half] is [xorb]. *)
Record two (A : Type) := mkTwo { at0 : A; at1 : A }.
Arguments mkTwo {A} _ _.
Arguments at0 {A} _.
Arguments at1 {A} _.

Definition sel {A} (p : bool) (x : two A) : A := if p then at1 x else at0 x.
Definition upd {A} (p : bool) (g : A -> A) (x : two A) : two A :=
  if p then mkTwo (at0 x) (g (at1 x)) else mkTwo (g (at0 x)) (at1 x).

Definition chunk := nat.
Definition slot := option chunk.

(** The four chunk lists of one phase: [input_chunks[p]],
    [output_chunks[p]], [input_grad_chunks[p]], [output_grad_chunks[p]]. *)
Record queues := mkQueues {
  inp : list slot;
  out : list slot;
  ig : list slot;
  og : list slot
}.

(** The six cursors of one phase: [current_f_chunk_id[p]],
    [current_b_chunk_id[p]], [current_send_f_chunk_id[p]],
    [current_send_b_chunk_id[p]], [current_recv_f_chunk_id[p]],
    [current_recv_b_chunk_id[p]]. *)
Record cursors := mkCursors {
  f_id : nat;
  b_id : nat;
  send_f_id : nat;
  send_b_id : nat;
  recv_f_id : nat;
  recv_b_id : nat
}.

Definition incr_f c := mkCursors (S (f_id c)) (b_id c) (send_f_id c) (send_b_id c) (recv_f_id c) (recv_b_id c).
Definition incr_b c := mkCursors (f_id c) (S (b_id c)) (send_f_id c) (send_b_id c) (recv_f_id c) (recv_b_id c).
Definition incr_send_f c := mkCursors (f_id c) (b_id c) (S (send_f_id c)) (send_b_id c) (recv_f_id c) (recv_b_id c).
Definition incr_send_b c := mkCursors (f_id c) (b_id c) (send_f_id c) (S (send_b_id c)) (recv_f_id c) (recv_b_id c).
Definition incr_recv_f c := mkCursors (f_id c) (b_id c) (send_f_id c) (send_b_id c) (S (recv_f_id c)) (recv_b_id c).
Definition incr_recv_b c := mkCursors (f_id c) (b_id c) (send_f_id c) (send_b_id c) (recv_f_id c) (S (recv_b_id c)).

Definition cursors0 := mkCursors 0 0 0 0 0 0.
Definition queues0 := mkQueues [] [] [] [].

(** A deferred weight-gradient unit: the physical phase and chunk id of the
    backward chunk it belongs to. *)
Definition wunit := (bool * nat)%type.

(** Modelled from the spec: [WeightGradStore] of [dualpipe.utils] (not in
    the sources).  [enabled] is the on/off switch; [cache] holds the units
    pushed while enabled; [funcs_queue] is the FIFO of units made ready by
    [flush] and consumed by [pop]. *)
Record wgstore := mkWGS {
  enabled : bool;
  cache : list wunit;
  funcs_queue : list wunit
}.

(** A point-to-point descriptor ([dist.P2POp]) and its peer. *)
Inductive p2p_kind := ISend | IRecv.
Record p2p := mkP2P { op : p2p_kind; peer : option nat }.

(** Compute calls, on physical phases: a shard forward, a backward (with
    the [WeightGradStore.enabled] value in force), the fused call. *)
Inductive compute_call :=
| CFwd (p : bool)
| CBwd (p : bool) (zb : bool)
| CFused (p0 p1 : bool).

Inductive event :=
| EIter (k i : nat)                         (* "Step k, iteration i+1" *)
| EFwdChunk (phase recv send : bool)        (* _forward_chunk(phase, recv, send) *)
| EBwdChunk (phase enable_zb recv send : bool) (* _backward_chunk(...) *)
| EFwdBwdChunk (phase0 phase1 recv0 : bool) (* _forward_backward_chunk(...) *)
| EMiddleBranch                             (* "Step 4: Middle rank branch" *)
| ECompute (c : compute_call)
| EPost (d : p2p)                           (* comm.append_isend / append_irecv *)
| ECursors (c : two cursors)                (* cursors after an update *)
| EWeight (u : wunit).                      (* a unit executed by pop() *)

Record state := mkState {
  forward_only : bool;
  return_outputs : bool;
  num_half_ranks : Z;
  half_rank : Z;
  chunks : two queues;
  cur : two cursors;
  labels : option (two (list chunk));
  loss_chunks : list chunk;
  criterion : bool;
  comm_ops : list p2p;
  wgs : wgstore;
  trace : list event
}.

Definition set_mode s fo ro := mkState fo ro (num_half_ranks s) (half_rank s) (chunks s) (cur s) (labels s) (loss_chunks s) (criterion s) (comm_ops s) (wgs s) (trace s).
Definition set_halves s nh h := mkState (forward_only s) (return_outputs s) nh h (chunks s) (cur s) (labels s) (loss_chunks s) (criterion s) (comm_ops s) (wgs s) (trace s).
Definition set_chunks s x := mkState (forward_only s) (return_outputs s) (num_half_ranks s) (half_rank s) x (cur s) (labels s) (loss_chunks s) (criterion s) (comm_ops s) (wgs s) (trace s).
Definition set_cur s x := mkState (forward_only s) (return_outputs s) (num_half_ranks s) (half_rank s) (chunks s) x (labels s) (loss_chunks s) (criterion s) (comm_ops s) (wgs s) (trace s).
Definition set_labels s x := mkState (forward_only s) (return_outputs s) (num_half_ranks s) (half_rank s) (chunks s) (cur s) x (loss_chunks s) (criterion s) (comm_ops s) (wgs s) (trace s).
Definition set_loss s x := mkState (forward_only s) (return_outputs s) (num_half_ranks s) (half_rank s) (chunks s) (cur s) (labels s) x (criterion s) (comm_ops s) (wgs s) (trace s).
Definition set_criterion s x := mkState (forward_only s) (return_outputs s) (num_half_ranks s) (half_rank s) (chunks s) (cur s) (labels s) (loss_chunks s) x (comm_ops s) (wgs s) (trace s).
Definition set_comm s x := mkState (forward_only s) (return_outputs s) (num_half_ranks s) (half_rank s) (chunks s) (cur s) (labels s) (loss_chunks s) (criterion s) x (wgs s) (trace s).
Definition set_wgs s x := mkState (forward_only s) (return_outputs s) (num_half_ranks s) (half_rank s) (chunks s) (cur s) (labels s) (loss_chunks s) (criterion s) (comm_ops s) x (trace s).
Definition set_trace s x := mkState (forward_only s) (return_outputs s) (num_half_ranks s) (half_rank s) (chunks s) (cur s) (labels s) (loss_chunks s) (criterion s) (comm_ops s) (wgs s) x.

(* ------------------------------------------------------------------ *)
(** ** A state monad with Python exceptions *)

Inductive error :=
| AssertShapes | AssertRanks | AssertChunks | AssertCriterion
| AssertQueueEmpty | AssertPopEmpty | IndexError | TypeError.

Inductive outcome (A : Type) :=
| Ok (a : A) (s : state)
| Err (e : error) (s : state).
Arguments Ok {A} _ _.
Arguments Err {A} _ _.

Definition M (A : Type) := state -> outcome A.

Definition ret {A} (a : A) : M A := fun s => Ok a s.
Definition bind {A B} (m : M A) (k : A -> M B) : M B :=
  fun s => match m s with Ok a s' => k a s' | Err e s' => Err e s' end.
Definition get : M state := fun s => Ok s s.
Definition modify (g : state -> state) : M unit := fun s => Ok tt (g s).
Definition raise {A} (e : error) : M A := fun s => Err e s.

Declare Scope dp_scope.
Delimit Scope dp_scope with dp.
Notation "x <- m ;; k" := (bind m (fun x => k))
  (at level 61, m at next level, right associativity) : dp_scope.
Notation "m ;; k" := (bind m (fun _ => k))
  (at level 61, right associativity) : dp_scope.
Open Scope dp_scope.

Definition when (b : bool) (m : M unit) : M unit := if b then m else ret tt.

Definition emit (e : event) : M unit :=
  modify (fun s => set_trace s (trace s ++ [e])).

(** [for i in range(n): body(i)], written so that [for_range (S n)] runs
    [for_range n] and then iteration [n]. *)
Fixpoint for_range (n : nat) (body : nat -> M unit) : M unit :=
  match n with
  | 0 => ret tt
  | S n' => for_range n' body ;; body n'
  end.

(** The same loop with a loop-carried local variable. *)
Fixpoint for_range_acc {A} (n : nat) (body : nat -> A -> M A) (a : A) : M A :=
  match n with
  | 0 => ret a
  | S n' => x <- for_range_acc n' body a ;; body n' x
  end.

(** [l[k]]: [IndexError] out of range. *)
Definition lookup {A} (l : list A) (k : nat) : M A :=
  match nth_error l k with Some x => ret x | None => raise IndexError end.

(** Iterating or unpacking a slot: [TypeError] on [None]. *)
Definition unpack (x : slot) : M chunk :=
  match x with Some c => ret c | None => raise TypeError end.

(** [l[k] = v]. *)
Definition assign {A} (l : list A) (k : nat) (v : A) : M (list A) :=
  match set_nth l k v with Some l' => ret l' | None => raise IndexError end.

Definition with_inp l q := mkQueues l (out q) (ig q) (og q).
Definition with_out l q := mkQueues (inp q) l (ig q) (og q).
Definition with_ig l q := mkQueues (inp q) (out q) l (og q).
Definition with_og l q := mkQueues (inp q) (out q) (ig q) l.

(* ------------------------------------------------------------------ *)
(** ** External collaborators *)

(** Modelled from the spec: [comm.append_irecv] of [dualpipe.comm] (not in
    the sources), "postRecv(peer, shapeSpec) -> placeholder": appends a
    receive descriptor to the pending list and returns the placeholder
    batch. *)
Definition append_irecv (peer : option nat) : M slot :=
  let d := mkP2P IRecv peer in
  modify (fun s => set_comm s (comm_ops s ++ [d])) ;;
  emit (EPost d) ;;
  ret (Some 0).

(** Modelled from the spec: [comm.append_isend], "postSend(peer, payload)". *)
Definition append_isend (peer : option nat) : M unit :=
  let d := mkP2P ISend peer in
  modify (fun s => set_comm s (comm_ops s ++ [d])) ;;
  emit (EPost d).

(** Modelled from the spec: the operations of [WeightGradStore]:
    [enabled] switch, [flush] (the pushed units become ready, in order),
    [pop] (asserts a ready unit exists, dequeues the oldest and runs it),
    [clear]. *)
Definition wgs_set_enabled (b : bool) : M unit :=
  modify (fun s => set_wgs s (mkWGS b (cache (wgs s)) (funcs_queue (wgs s)))).

Definition wgs_flush : M unit :=
  modify (fun s => set_wgs s (mkWGS (enabled (wgs s)) []
                                    (funcs_queue (wgs s) ++ cache (wgs s)))).

Definition wgs_pop : M unit :=
  s <- get ;;
  match funcs_queue (wgs s) with
  | [] => raise AssertPopEmpty
  | u :: rest =>
      modify (fun s => set_wgs s (mkWGS (enabled (wgs s)) (cache (wgs s)) rest)) ;;
      emit (EWeight u)
  end.

Definition wgs_clear : M unit :=
  modify (fun s => set_wgs s (mkWGS (enabled (wgs s)) [] [])).

(** Modelled from the spec: [run_backward] / [loss.backward()]: the
    backward of one chunk; while the store is enabled its weight-gradient
    unit is pushed instead of being computed at once. *)
Definition run_backward (u : wunit) : M unit :=
  s <- get ;;
  let en := enabled (wgs s) in
  emit (ECompute (CBwd (fst u) en)) ;;
  when en (modify (fun s => set_wgs s (mkWGS (enabled (wgs s))
                                              (cache (wgs s) ++ [u])
                                              (funcs_queue (wgs s))))).

(* ------------------------------------------------------------------ *)
(** ** The methods of [DualPipe] *)

Section Rank.

Variable T : dualpipe.

Definition second_half : bool := is_in_second_half T.

Definition is_last_stage (p : bool) : bool :=
  (is_first_rank T && p) || (is_last_rank T && negb p).
Definition is_first_stage (p : bool) : bool :=
  (is_first_rank T && negb p) || (is_last_rank T && p).

Definition update_cursors (p : bool) (g : cursors -> cursors) : M unit :=
  s <- get ;;
  let c := upd p g (cur s) in
  modify (fun s => set_cur s c) ;;
  emit (ECursors c).

Definition update_queues (p : bool) (g : queues -> queues) : M unit :=
  modify (fun s => set_chunks s (upd p g (chunks s))).

(** [self.labels[phase]]: subscripting [None] is a [TypeError]. *)
Definition labels_of (p : bool) : M (list chunk) :=
  s <- get ;;
  match labels s with Some l => ret (sel p l) | None => raise TypeError end.

(** [_reset_states] *)
Definition reset_states : M unit :=
  wgs_clear ;;
  modify (fun s => set_chunks s (mkTwo queues0 queues0)) ;;
  modify (fun s => set_labels s None) ;;
  modify (fun s => set_loss s []) ;;
  modify (fun s => set_criterion s false) ;;
  modify (fun s => set_cur s (mkTwo cursors0 cursors0)) ;;
  modify (fun s => set_comm s []).

(** [_forward_compute_chunk] *)
Definition forward_compute_chunk (phase : bool) : M unit :=
  let p := xorb phase second_half in
  s <- get ;;
  let chunk_id := f_id (sel p (cur s)) in
  update_cursors p incr_f ;;
  inputs <- lookup (inp (sel p (chunks s))) chunk_id ;;
  s <- get ;;
  when (forward_only s)
    (l <- assign (inp (sel p (chunks s))) chunk_id None ;;
     update_queues p (with_inp l)) ;;
  let last := is_last_stage p in
  _ <- unpack inputs ;;
  emit (ECompute (CFwd p)) ;;
  s <- get ;;
  when (last && criterion s)
    (lab <- labels_of p ;;
     _ <- lookup lab chunk_id ;;
     modify (fun s => set_loss s (loss_chunks s ++ [chunk_id]))) ;;
  s <- get ;;
  when (negb last || return_outputs s)
    (update_queues p (fun q => with_out (out q ++ [Some chunk_id]) q)).

(** [_backward_compute_chunk]; the gradients that are [None] inside a
    batch are not modelled, so the filtered batch is never empty. *)
Definition backward_compute_chunk (phase enable_zb : bool) : M unit :=
  s <- get ;;
  if forward_only s then ret tt else
  let p := xorb phase second_half in
  let chunk_id := b_id (sel p (cur s)) in
  update_cursors p incr_b ;;
  let last := is_last_stage p in
  wgs_set_enabled enable_zb ;;
  (if last then
     s <- get ;;
     _ <- lookup (loss_chunks s) chunk_id ;;
     run_backward (p, chunk_id)
   else
     s <- get ;;
     outputs <- lookup (out (sel p (chunks s))) chunk_id ;;
     when (negb (return_outputs s))
       (l <- assign (out (sel p (chunks s))) chunk_id None ;;
        update_queues p (with_out l)) ;;
     s <- get ;;
     output_grads <- lookup (og (sel p (chunks s))) chunk_id ;;
     l <- assign (og (sel p (chunks s))) chunk_id None ;;
     update_queues p (with_og l) ;;
     _ <- unpack outputs ;;
     _ <- unpack output_grads ;;
     run_backward (p, chunk_id)) ;;
  wgs_set_enabled false ;;
  when enable_zb wgs_flush ;;
  s <- get ;;
  inputs <- lookup (inp (sel p (chunks s))) chunk_id ;;
  l <- assign (inp (sel p (chunks s))) chunk_id None ;;
  update_queues p (with_inp l) ;;
  _ <- unpack inputs ;;
  update_queues p (fun q => with_ig (ig q ++ [Some chunk_id]) q).

(** [_forward_backward_compute_chunk] *)
Definition forward_backward_compute_chunk (phase0 phase1 : bool) : M unit :=
  s <- get ;;
  if forward_only s then forward_compute_chunk phase0 else
  if negb (overlaped_forward_backward T) then
    (forward_compute_chunk phase0 ;; backward_compute_chunk phase1 false)
  else
  (* pre-forward *)
  let p0 := xorb phase0 second_half in
  let chunk_id0 := f_id (sel p0 (cur s)) in
  update_cursors p0 incr_f ;;
  _ <- lookup (inp (sel p0 (chunks s))) chunk_id0 ;;
  let last0 := is_last_stage p0 in
  s <- get ;;
  (if last0 && criterion s then
     lab <- labels_of p0 ;; _ <- lookup lab chunk_id0 ;; ret tt
   else ret tt) ;;
  (* pre-backward *)
  let p1 := xorb phase1 second_half in
  s <- get ;;
  let chunk_id1 := b_id (sel p1 (cur s)) in
  update_cursors p1 incr_b ;;
  let last1 := is_last_stage p1 in
  (if last1 then
     _ <- lookup (loss_chunks s) chunk_id1 ;; ret tt
   else
     outputs1 <- lookup (out (sel p1 (chunks s))) chunk_id1 ;;
     when (negb (return_outputs s))
       (l <- assign (out (sel p1 (chunks s))) chunk_id1 None ;;
        update_queues p1 (with_out l)) ;;
     s <- get ;;
     output_grads1 <- lookup (og (sel p1 (chunks s))) chunk_id1 ;;
     l <- assign (og (sel p1 (chunks s))) chunk_id1 None ;;
     update_queues p1 (with_og l) ;;
     _ <- unpack outputs1 ;;
     _ <- unpack output_grads1 ;;
     ret tt) ;;
  (* forward & backward *)
  emit (ECompute (CFused p0 p1)) ;;
  (* post-forward *)
  s <- get ;;
  when (negb last0 || return_outputs s)
    (update_queues p0 (fun q => with_out (out q ++ [Some chunk_id0]) q)) ;;
  s <- get ;;
  when (last0 && criterion s)
    (modify (fun s => set_loss s (loss_chunks s ++ [chunk_id0]))) ;;
  (* post-backward *)
  s <- get ;;
  inputs <- lookup (inp (sel p1 (chunks s))) chunk_id1 ;;
  l <- assign (inp (sel p1 (chunks s))) chunk_id1 None ;;
  update_queues p1 (with_inp l) ;;
  _ <- unpack inputs ;;
  update_queues p1 (fun q => with_ig (ig q ++ [Some chunk_id1]) q).

(** [_recv_forward] *)
Definition recv_forward (phase : bool) : M unit :=
  let p := xorb phase second_half in
  if is_first_stage p then ret tt else
  update_cursors p incr_recv_f ;;
  let prev_or_next := if p then next_rank T else prev_rank T in
  tensors <- append_irecv prev_or_next ;;
  update_queues p (fun q => with_inp (inp q ++ [tensors]) q).

(** [_send_forward]; [self.to_free.extend(tensors)] iterates the batch. *)
Definition send_forward (phase : bool) : M unit :=
  let p := xorb phase second_half in
  if is_last_stage p then ret tt else
  s <- get ;;
  let chunk_id := send_f_id (sel p (cur s)) in
  update_cursors p incr_send_f ;;
  tensors <- lookup (out (sel p (chunks s))) chunk_id ;;
  append_isend (if p then prev_rank T else next_rank T) ;;
  s <- get ;;
  when (negb (return_outputs s)) (_ <- unpack tensors ;; ret tt).

(** [_recv_backward] *)
Definition recv_backward (phase : bool) : M unit :=
  s <- get ;;
  if forward_only s then ret tt else
  let p := xorb phase second_half in
  if is_last_stage p then ret tt else
  update_cursors p incr_recv_b ;;
  tensors <- append_irecv (if p then prev_rank T else next_rank T) ;;
  update_queues p (fun q => with_og (og q ++ [tensors]) q).

(** [_send_backward] *)
Definition send_backward (phase : bool) : M unit :=
  s <- get ;;
  if forward_only s then ret tt else
  let p := xorb phase second_half in
  if is_first_stage p then ret tt else
  let chunk_id := send_b_id (sel p (cur s)) in
  update_cursors p incr_send_b ;;
  s <- get ;;
  _ <- lookup (ig (sel p (chunks s))) chunk_id ;;
  l <- assign (ig (sel p (chunks s))) chunk_id None ;;
  update_queues p (with_ig l) ;;
  append_isend (if p then next_rank T else prev_rank T).

(** [_commit_and_wait_comm]; the batched exchange itself and the release
    of [to_free] (with its view assertion) act on tensors only. *)
Definition commit_and_wait_comm : M unit :=
  s <- get ;;
  match comm_ops s with
  | [] => ret tt
  | _ :: _ => modify (fun s => set_comm s [])
  end.

(** [_weight_chunk] *)
Definition weight_chunk : M unit :=
  s <- get ;;
  if forward_only s then ret tt else
  commit_and_wait_comm ;;
  wgs_pop.

(** [_forward_chunk] *)
Definition forward_chunk (phase recv send : bool) : M unit :=
  emit (EFwdChunk phase recv send) ;;
  when recv (recv_forward phase) ;;
  commit_and_wait_comm ;;
  forward_compute_chunk phase ;;
  when send (send_forward phase).

(** [_backward_chunk] *)
Definition backward_chunk (phase enable_zb recv send : bool) : M unit :=
  emit (EBwdChunk phase enable_zb recv send) ;;
  when recv (recv_backward phase) ;;
  commit_and_wait_comm ;;
  backward_compute_chunk phase enable_zb ;;
  when send (send_backward phase).

(** [_forward_backward_chunk] *)
Definition forward_backward_chunk (phase0 phase1 recv0 : bool) : M unit :=
  emit (EFwdBwdChunk phase0 phase1 recv0) ;;
  when recv0 (recv_forward phase0) ;;
  recv_backward phase1 ;;
  commit_and_wait_comm ;;
  forward_backward_compute_chunk phase0 phase1 ;;
  send_forward phase0 ;;
  send_backward phase1.

(* ------------------------------------------------------------------ *)
(** ** [step]: the eight phases *)

(** Step 1: nF0 *)
Definition phase1 (step_1 : nat) : M unit :=
  for_range step_1 (fun i => emit (EIter 1 i) ;; forward_chunk false true true).

(** Step 2: nF0F1 *)
Definition phase2 (step_2 : Z) : M unit :=
  recv_forward false ;;
  for_range (Z.to_nat step_2) (fun i =>
    emit (EIter 2 i) ;;
    forward_chunk false false (is_middle_rank T) ;;
    recv_forward false ;;
    forward_chunk true true (negb (is_middle_rank T) || (Z.of_nat i <? step_2 - 1)%Z) ;;
    when (negb (is_middle_rank T)) (send_forward false)).

(** Step 3: nB1W1F1 (zero bubble) *)
Definition phase3 (step_3 : nat) : M unit :=
  for_range step_3 (fun i =>
    emit (EIter 3 i) ;;
    backward_chunk true true true true ;;
    recv_forward true ;;
    weight_chunk ;;
    forward_chunk true false true).

(** Step 4 (main step): nF0B1F1B0 *)
Definition phase4 (step_4 : nat) : M unit :=
  for_range step_4 (fun i =>
    emit (EIter 4 i) ;;
    (if i =? 0 then
       if is_middle_rank T then
         emit EMiddleBranch ;;
         forward_chunk false false false ;;
         send_forward true ;;
         backward_chunk true false true false ;;
         send_forward false ;;
         send_backward true
       else forward_backward_chunk false true false
     else forward_backward_chunk false true true) ;;
    forward_backward_chunk true false true).

(** Step 5: nB1F1B0 *)
Definition phase5 (step_5 : nat) : M unit :=
  for_range step_5 (fun i =>
    emit (EIter 5 i) ;;
    backward_chunk true false true true ;;
    forward_backward_chunk true false true).

(** Step 6: nB1B0, the loop-carried [enable_zb] starting at [False]. *)
Definition phase6_body (step_6 half_rank : Z) (i : nat) (enable_zb : bool) : M bool :=
  emit (EIter 6 i) ;;
  let enable_zb :=
    if (Z.of_nat i =? step_6 / 2)%Z && (half_rank mod 2 =? 1)%Z then true else enable_zb in
  backward_chunk true enable_zb true true ;;
  let enable_zb :=
    if (Z.of_nat i =? step_6 / 2)%Z && (half_rank mod 2 =? 0)%Z then true else enable_zb in
  backward_chunk false enable_zb true true ;;
  ret enable_zb.

Definition phase6 (step_6 half_rank : Z) : M unit :=
  _ <- for_range_acc (Z.to_nat step_6) (phase6_body step_6 half_rank) false ;; ret tt.

(** Step 7: nWB0 (zero bubble) *)
Definition phase7 (step_7 : nat) : M unit :=
  for_range step_7 (fun i =>
    emit (EIter 7 i) ;;
    weight_chunk ;;
    backward_chunk false true true true).

(** Step 8: nW *)
Definition phase8 (step_8 : nat) : M unit :=
  for_range step_8 (fun i => emit (EIter 8 i) ;; weight_chunk).

(** The schedule.  Python's [range(n)] of a negative [n] is empty, as is
    [for_range (Z.to_nat n)]. *)
Definition run_phases (num_half_ranks half_rank half_num_chunks : Z) : M unit :=
  let num_ranks := Z.of_nat (num_ranks T) in
  phase1 (Z.to_nat ((num_half_ranks - half_rank - 1) * 2)) ;;
  phase2 (half_rank + 1) ;;
  phase3 (Z.to_nat (num_half_ranks - half_rank - 1)) ;;
  phase4 (Z.to_nat (half_num_chunks - num_ranks + half_rank + 1)) ;;
  phase5 (Z.to_nat (num_half_ranks - half_rank - 1)) ;;
  phase6 (half_rank + 1) half_rank ;;
  phase7 (Z.to_nat (num_half_ranks - half_rank - 1)) ;;
  phase8 (Z.to_nat (half_rank + 1)).

(** Modelled from the spec: [scatter(batch, n, dim)] of [dualpipe.utils]
    returns [n] micro-batches. *)
Definition scatter (n : nat) : list chunk := seq 0 n.

(** Modelled from the spec: [gather(sequence, dim)] merges the batches. *)
Definition gather (l : list slot) : list slot := l.

(** The part of [step] before the eight phases: the assertions, the
    per-step attributes, [_reset_states] and the scattered inputs and
    labels.  [shapes_set] is [comm.TENSOR_SHAPES is not None and
    comm.TENSOR_DTYPE is not None]; [grad_enabled] is
    [torch.is_grad_enabled()]; [crit] is [criterion is not None].  The
    result is [(num_half_ranks, half_rank, half_num_chunks)]. *)
Definition step_prologue (shapes_set grad_enabled : bool) (num_chunks : Z)
    (crit return_outputs : bool) : M (Z * Z * Z) :=
  if negb shapes_set then raise AssertShapes else
  modify (fun s => set_mode s (negb grad_enabled) return_outputs) ;;
  let n := Z.of_nat (num_ranks T) in
  let r := Z.of_nat (rank T) in
  if negb (n mod 2 =? 0)%Z then raise AssertRanks else
  if negb ((0 <? num_chunks)%Z && (num_chunks mod 2 =? 0)%Z && (n * 2 <=? num_chunks)%Z)
  then raise AssertChunks else
  let num_half_ranks := (n / 2)%Z in
  let half_rank := Z.min r (n - 1 - r) in
  let half_num_chunks := (num_chunks / 2)%Z in
  modify (fun s => set_halves s num_half_ranks half_rank) ;;
  s <- get ;;
  if negb (forward_only s) && (is_first_rank T || is_last_rank T) && negb crit
  then raise AssertCriterion else
  reset_states ;;
  let inputs := map Some (scatter (Z.to_nat half_num_chunks)) in
  let lbls := scatter (Z.to_nat half_num_chunks) in
  (if is_first_rank T then
     modify (fun s => set_chunks s (mkTwo (with_inp inputs queues0) queues0)) ;;
     modify (fun s => set_labels s (Some (mkTwo [] lbls)))
   else if is_last_rank T then
     modify (fun s => set_chunks s (mkTwo queues0 (with_inp inputs queues0))) ;;
     modify (fun s => set_labels s (Some (mkTwo lbls [])))
   else ret tt) ;;
  modify (fun s => set_criterion s crit) ;;
  ret (num_half_ranks, half_rank, half_num_chunks).

(** The part of [step] after the eight phases: the queue assertion, the
    last commit, the results and [_reset_states]. *)
Definition step_epilogue (crit return_outputs : bool)
    : M (option (list chunk) * option (list slot)) :=
  s <- get ;;
  match funcs_queue (wgs s) with
  | _ :: _ => raise AssertQueueEmpty
  | [] =>
      commit_and_wait_comm ;;
      s <- get ;;
      let ends := is_first_rank T || is_last_rank T in
      let loss := if ends && crit then Some (loss_chunks s) else None in
      let outputs :=
        if ends && return_outputs
        then Some (gather (out (sel (is_first_rank T) (chunks s))))
        else None in
      reset_states ;;
      ret (loss, outputs)
  end.

(** [step] up to the end of phase 8. *)
Definition step_phases (shapes_set grad_enabled : bool) (num_chunks : Z)
    (crit return_outputs : bool) : M unit :=
  x <- step_prologue shapes_set grad_enabled num_chunks crit return_outputs ;;
  let '(nh, h, k) := x in
  run_phases nh h k.

(** [DualPipe.step] *)
Definition step (shapes_set grad_enabled : bool) (num_chunks : Z)
    (crit return_outputs : bool) : M (option (list chunk) * option (list slot)) :=
  step_phases shapes_set grad_enabled num_chunks crit return_outputs ;;
  step_epilogue crit return_outputs.

End Rank.

(* ------------------------------------------------------------------ *)
(** ** Observations *)

Definition outstate {A} (o : outcome A) : state :=
  match o with Ok _ s => s | Err _ s => s end.

(** The computation [m] succeeds and its final state satisfies [P]. *)
Definition ok_and {A} (o : outcome A) (P : state -> Prop) : Prop :=
  match o with Ok _ s => P s | Err _ _ => False end.

(** Every event that [m] appends to the trace satisfies [P], whatever the
    outcome. *)
Definition emits {A} (P : event -> Prop) (m : M A) : Prop :=
  forall s, exists new, trace (outstate (m s)) = trace s ++ new /\ Forall P new.

(** On success, the events appended by [m], seen through [proj], are [L]. *)
Definition gives {A B} (proj : event -> list B) (L : list B) (m : M A) : Prop :=
  forall s a s', m s = Ok a s' ->
  exists new, trace s' = trace s ++ new /\ flat_map proj new = L.

Definition iter_proj (e : event) : list nat :=
  match e with EIter k _ => [k] | _ => [] end.
Definition bwd_proj (e : event) : list (bool * bool) :=
  match e with EBwdChunk q zb _ _ => [(q, zb)] | _ => [] end.
Definition compute_proj (e : event) : list compute_call :=
  match e with ECompute c => [c] | _ => [] end.

(** Iterations of phase [k] logged in [l]. *)
Definition count_phase (k : nat) (l : list event) : nat :=
  length (filter (fun e => match e with EIter k' _ => k' =? k | _ => false end) l).
Definition phase_counts (l : list event) : list nat :=
  map (fun k => count_phase k l) [1; 2; 3; 4; 5; 6; 7; 8].

(** The phase numbers of the iteration log of a schedule with the
    iteration counts [cs] of phases 1 to 8. *)
Definition iter_log (cs : list nat) : list nat :=
  flat_map (fun kc => repeat (fst kc) (snd kc)) (combine (seq 1 8) cs).

(** The iteration counts of the table of the schedule. *)
Definition table_counts (num_ranks rank num_chunks : Z) : list nat :=
  let num_half_ranks := (num_ranks / 2)%Z in
  let half_rank := Z.min rank (num_ranks - 1 - rank)%Z in
  let half_num_chunks := (num_chunks / 2)%Z in
  map Z.to_nat
    [((num_half_ranks - half_rank - 1) * 2); half_rank + 1;
     num_half_ranks - half_rank - 1;
     half_num_chunks - num_ranks + half_rank + 1;
     num_half_ranks - half_rank - 1; half_rank + 1;
     num_half_ranks - half_rank - 1; half_rank + 1]%Z.

(** Phase 6 as the spec states it: zero bubble off at the start, switched
    on at iteration [i = (halfRank+1)/2], from that iteration's direction-1
    backward when [halfRank] is odd and from its direction-0 backward when
    [halfRank] is even, and on for every later backward. *)
Definition zb_dir1 (half_rank : Z) (i : nat) : bool :=
  ((Z.of_nat i =? (half_rank + 1) / 2)%Z && (half_rank mod 2 =? 1)%Z)
  || ((half_rank + 1) / 2 <? Z.of_nat i)%Z.
Definition zb_dir0 (half_rank : Z) (i : nat) : bool :=
  ((half_rank + 1) / 2 <=? Z.of_nat i)%Z.
Definition phase6_spec (half_rank : Z) : list (bool * bool) :=
  flat_map (fun i => [(true, zb_dir1 half_rank i); (false, zb_dir0 half_rank i)])
    (seq 0 (Z.to_nat (half_rank + 1))).

(** The compute calls of [_forward_backward_compute_chunk] as the spec
    describes them: forward only in forward-only mode, else the fused call
    when the capability is present, else a plain forward then a plain
    backward (without zero bubble). *)
Definition fb_calls (fused fo : bool) (p0 p1 : bool) : list compute_call :=
  if fo then [CFwd p0] else if fused then [CFused p0 p1] else [CFwd p0; CBwd p1 false].

Definition is_fused_call (e : event) : bool :=
  match e with ECompute (CFused _ _) => true | _ => false end.
Definition is_fb_chunk (e : event) : bool :=
  match e with EFwdBwdChunk _ _ _ => true | _ => false end.

(** [s'] differs from [s] at most in the attributes [step] assigns before
    its assertions: [forward_only], [return_outputs], [num_half_ranks],
    [half_rank]. *)
Definition same_but_mode (s s' : state) : Prop :=
  chunks s' = chunks s /\ cur s' = cur s /\ labels s' = labels s /\
  loss_chunks s' = loss_chunks s /\ criterion s' = criterion s /\
  comm_ops s' = comm_ops s /\ wgs s' = wgs s /\ trace s' = trace s.

(** A precondition of [step] is violated: shapes unset, an odd number of
    ranks, a number of chunks that is not positive, even and at least
    [2 * num_ranks], or no criterion on an end rank with gradients on. *)
Definition bad_call (T : dualpipe) (shapes_set grad_enabled : bool) (num_chunks : Z)
    (crit : bool) : Prop :=
  shapes_set = false \/
  (Z.of_nat (num_ranks T) mod 2 <> 0)%Z \/
  ~ (0 < num_chunks /\ num_chunks mod 2 = 0 /\ Z.of_nat (num_ranks T) * 2 <= num_chunks)%Z \/
  (grad_enabled = true /\ is_first_rank T || is_last_rank T = true /\ crit = false).

(** A state before any step: nothing allocated, nothing logged. *)
Definition fresh : state :=
  mkState false false 0%Z 0%Z (mkTwo queues0 queues0) (mkTwo cursors0 cursors0)
    None [] false [] (mkWGS false [] []) [].

(** [rank_mapping] is a permutation of [0 .. n-1]. *)
Definition perm_ok (n : nat) (m : list nat) : Prop :=
  length m = n /\ NoDup m /\ Forall (fun x => x < n) m.

(** The flags of a rank agree with its logical rank. *)
Definition wf (T : dualpipe) : Prop :=
  2 <= num_ranks T /\ rank T < num_ranks T /\
  is_first_rank T = (rank T =? 0) /\
  is_last_rank T = (rank T =? num_ranks T - 1) /\
  is_in_second_half T = (num_ranks T / 2 <=? rank T) /\
  is_middle_rank T = (2 <? num_ranks T) &&
                     ((rank T =? num_ranks T / 2 - 1) || (rank T =? num_ranks T / 2)).

(** The only missing neighbours are those of the two ends. *)
Definition peers_ok (T : dualpipe) : Prop :=
  (prev_rank T = None -> is_first_rank T = true) /\
  (next_rank T = None -> is_last_rank T = true).

(** A posted descriptor names a peer. *)
Definition post_ok (e : event) : Prop :=
  match e with EPost d => peer d <> None | _ => True end.

(** The rank built by [__init__] for a group of [n] ranks with the default
    mapping, two shard modules of one type with the fused operation. *)
Definition demo_rank (n r : nat) : dualpipe :=
  match init 0 0 (fun _ => true) n r None with
  | Some T => T
  | None => mkDualPipe 0 0 None None None None false false false false false
  end.

(** The events of the communication and compute methods (not of the
    [_*_chunk] wrappers nor of [step]'s own loops). *)
Definition method_event (T : dualpipe) (e : event) : Prop :=
  match e with
  | EPost d => peers_ok T -> peer d <> None
  | ECompute _ | ECursors _ | EWeight _ => True
  | _ => False
  end.

(** The events [step] may emit: the middle-rank branch of phase 4 and the
    send of phase 2's first forward only on a middle rank. *)
Definition sched_event (T : dualpipe) (e : event) : Prop :=
  match e with
  | EIter _ _ => True
  | EMiddleBranch => is_middle_rank T = true
  | EFwdChunk false false true => is_middle_rank T = true
  | EFwdChunk _ _ _ | EBwdChunk _ _ _ _ | EFwdBwdChunk _ _ _ => True
  | e => method_event T e
  end.

(** [l[i]] is [None] exactly below [k]. *)
Definition live (l : list slot) (k : nat) : Prop :=
  forall i x, nth_error l i = Some x -> (x = None <-> i < k).

Section Invariant.

Variable T : dualpipe.

(** The ordering of the cursors of physical phase [p]: [send <= compute
    <= recv] for forward and backward, except that the receive cursor of
    the side fed by [scatter] (forward, first stage) or by the loss
    (backward, last stage) stays at 0 together with the matching send
    cursor. *)
Definition cursor_order (p : bool) (c : cursors) : Prop :=
  send_f_id c <= f_id c /\ send_b_id c <= b_id c /\
  (if is_first_stage T p then recv_f_id c = 0 /\ send_b_id c = 0
   else f_id c <= recv_f_id c) /\
  (if is_last_stage T p then recv_b_id c = 0 /\ send_f_id c = 0
   else b_id c <= recv_b_id c).

(** A logged cursor update respects the ordering on both phases. *)
Definition snap_ok (e : event) : Prop :=
  match e with
  | ECursors c => cursor_order false (at0 c) /\ cursor_order true (at1 c)
  | _ => True
  end.

Variable K : nat.
Variables (fo ro : bool).

(** The chunk lists of physical phase [p] against its cursors, [K]
    chunks per phase, in mode [fo] ([forward_only]) and [ro]
    ([return_outputs]). *)
Definition phase_inv (p : bool) (c : cursors) (q : queues) : Prop :=
  length (inp q) = (if is_first_stage T p then K else recv_f_id c) /\
  live (inp q) (if fo then f_id c else b_id c) /\
  length (out q) = (if is_last_stage T p && negb ro then 0 else f_id c) /\
  live (out q) (if ro then 0 else b_id c) /\
  length (og q) = recv_b_id c /\ live (og q) (b_id c) /\
  length (ig q) = b_id c /\ live (ig q) (send_b_id c) /\
  b_id c <= f_id c /\
  (is_first_stage T p = true -> f_id c <= K) /\
  cursor_order p c.

(** The number of losses kept: one per forward chunk on a last stage. *)
Definition loss_len (crit : bool) (c : two cursors) : nat :=
  (if crit && is_last_stage T false then f_id (at0 c) else 0) +
  (if crit && is_last_stage T true then f_id (at1 c) else 0).

(** The state [s] of a step running in mode [fo]/[ro] with cursors [c]
    and [w] units in the weight-gradient queue. *)
Definition rel (c : two cursors) (w : nat) (s : state) : Prop :=
  forward_only s = fo /\ return_outputs s = ro /\ cur s = c /\
  length (funcs_queue (wgs s)) = w /\ cache (wgs s) = [] /\
  (forall p, phase_inv p (sel p c) (sel p (chunks s))) /\
  length (loss_chunks s) = loss_len (criterion s) c /\
  (forall p, is_last_stage T p = true -> criterion s = true ->
     exists lab, labels s = Some lab /\ length (sel p lab) = K) /\
  (fo = false -> is_first_rank T || is_last_rank T = true -> criterion s = true).

(** Total correctness of [m]: from every state related to [c] and [w] it
    returns [a] in a state related to [c'] and [w'], and every cursor
    update it logs respects the ordering. *)
Definition runs {A} (m : M A) (c : two cursors) (w : nat) (a : A)
    (c' : two cursors) (w' : nat) : Prop :=
  forall s, rel c w s -> exists s', m s = Ok a s' /\ rel c' w' s' /\
    exists new, trace s' = trace s ++ new /\ Forall snap_ok new.

(** The cursors of physical phase [p] at the end of phase 8. *)
Definition final_cursors (p : bool) : cursors :=
  let fs := is_first_stage T p in
  let ls := is_last_stage T p in
  if fo then
    mkCursors K 0 (if ls then 0 else K) 0 (if fs then 0 else K) 0
  else
    mkCursors K K (if ls then 0 else K) (if fs then 0 else K)
              (if fs then 0 else K) (if ls then 0 else K).

End Invariant.

(** ** The cursors along the schedule

    The cursors of both phases after iteration [i] of each of the eight
    phases, on a rank with [nh] half ranks and half rank [h]: [cur0] is
    the phase of direction 0, [cur1] the phase of direction 1, [lmk]
    places them by [is_in_second_half]; [ends] marks the ranks whose
    stages are the first or the last, where the receive and send cursors
    of the loss and input sides stay at 0 ([nz]); in forward-only mode the
    backward cursors stay at 0 ([bw]). *)

Definition nz (z : bool) (x : nat) : nat := if z then 0 else x.
Definition bw (fo : bool) (x : nat) : nat := if fo then 0 else x.
Definition lmk {A} (sh : bool) (l0 l1 : A) : two A := if sh then mkTwo l1 l0 else mkTwo l0 l1.
Definition cur0 (z fo : bool) (f b rf : nat) : cursors :=
  mkCursors f (bw fo b) f (bw fo (nz z b)) (nz z rf) (bw fo b).
Definition cur1 (z fo : bool) (f b d : nat) : cursors :=
  mkCursors f (bw fo b) (nz z (f - d)) (bw fo b) f (bw fo (nz z b)).
Definition ends (T : dualpipe) : bool := is_first_rank T || is_last_rank T.

(** The shape of a well-formed rank with [nh] half ranks and half rank
    [h]. *)
Definition shape_ok (T : dualpipe) (nh h : nat) : Prop :=
  h < nh /\ (ends T = true -> h = 0) /\
  (is_middle_rank T = true -> S h = nh /\ ends T = false) /\
  (is_first_rank T = true -> is_last_rank T = false /\ second_half T = false) /\
  (is_last_rank T = true -> second_half T = true).

(** After iteration [i] of phase 1. *)
Definition st1 T fo i :=
  lmk (second_half T) (cur0 (ends T) fo i 0 i) (cur1 (ends T) fo 0 0 0).

(** After iteration [i] of phase 2 (0: after its first [_recv_forward]). *)
Definition st2 T fo nh h i :=
  lmk (second_half T) (cur0 (ends T) fo (2 * (nh - h - 1) + i) 0 (2 * (nh - h - 1) + 1 + i))
    (cur1 (ends T) fo i 0 (if is_middle_rank T && (i =? S h) then 1 else 0)).

(** After iteration [i] of phase 3. *)
Definition st3 T fo nh h i :=
  lmk (second_half T) (cur0 (ends T) fo (2 * (nh - h - 1) + S h) 0 (2 * (nh - h - 1) + 1 + S h))
    (cur1 (ends T) fo (S h + i) i (if is_middle_rank T then 1 else 0)).

(** After iteration [i] of phase 4. *)
Definition st4 T fo nh h i :=
  lmk (second_half T) (cur0 (ends T) fo (2 * (nh - h - 1) + S h + i) i (2 * (nh - h - 1) + S h + i + (if i =? 0 then 1 else 0)))
    (cur1 (ends T) fo (S h + (nh - h - 1) + i) (nh - h - 1 + i)
       (if is_middle_rank T && (i =? 0) then 1 else 0)).

(** After iteration [i] of phase 5; [K] chunks per phase. *)
Definition st5 T K fo nh h i :=
  lmk (second_half T) (cur0 (ends T) fo K (K - 2 * nh + h + 1 + i) K)
    (cur1 (ends T) fo (S h + (nh - h - 1) + (K - 2 * nh + h + 1) + i)
       (nh - h - 1 + (K - 2 * nh + h + 1) + i) 0).

(** After iteration [i] of phase 6. *)
Definition st6 T K fo nh h i :=
  lmk (second_half T) (cur0 (ends T) fo K (K - 2 * nh + h + 1 + (nh - h - 1) + i) K)
    (cur1 (ends T) fo K (2 * (nh - h - 1) + (K - 2 * nh + h + 1) + i) 0).

(** After iteration [i] of phase 7, and during phase 8. *)
Definition st7 T K fo nh h i :=
  lmk (second_half T) (cur0 (ends T) fo K (K - 2 * nh + h + 1 + (nh - h - 1) + S h + i) K)
    (cur1 (ends T) fo K K 0).

(** The length of the weight-gradient queue after iteration [i] of
    phase 6. *)
Definition w6 (fo : bool) (h i : nat) : nat :=
  if fo then 0 else
  if i <=? S h / 2 then 0 else 2 * (i - S h / 2) - (if Nat.even h then 1 else 0).


(** ** Invariants used by the further results *)

(** [keeps P m]: every successful run of [m] from a state satisfying
    [P] ends in a state satisfying [P]. *)
Definition keeps {A} (P : state -> Prop) (m : M A) : Prop :=
  forall s a s', P s -> m s = Ok a s' -> P s'.

(** The per-chunk losses recorded so far are those of micro-batches
    [0 .. f - 1] in order, [f] the forward cursor of the last-stage phase,
    on the end ranks with a criterion; none elsewhere. *)
Definition loss_ok (T : dualpipe) (s : state) : Prop :=
  loss_chunks s =
    if ends T && criterion s then seq 0 (f_id (sel (is_first_rank T) (cur s))) else [].

(** With [return_outputs], the output queue of each phase holds the
    outputs of micro-batches [0 .. f - 1] in order, none released. *)
Definition outs_ok (s : state) : Prop :=
  return_outputs s = true ->
  forall p, out (sel p (chunks s)) = map Some (seq 0 (f_id (sel p (cur s)))).

Definition lo_ok (T : dualpipe) (s : state) : Prop := loss_ok T s /\ outs_ok s.

(* ================================================================== *)
(** * Proofs *)

(** ** The monad *)

Lemma bind_ok {A B} (m : M A) (k : A -> M B) s a s' :
  m s = Ok a s' -> bind m k s = k a s'.
Proof. unfold bind; intros ->; reflexivity. Qed.

Lemma emits_ret {A} P (a : A) : emits P (ret a).
Proof. intros s; exists []; simpl; rewrite app_nil_r; auto. Qed.

Lemma emits_raise {A} P e : emits P (@raise A e).
Proof. intros s; exists []; simpl; rewrite app_nil_r; auto. Qed.

Lemma emits_get P : emits P get.
Proof. intros s; exists []; simpl; rewrite app_nil_r; auto. Qed.

Lemma emits_modify P g : (forall s, trace (g s) = trace s) -> emits P (modify g).
Proof. intros Hg s; exists []; simpl; rewrite app_nil_r; auto. Qed.

Lemma emits_emit (P : event -> Prop) e : P e -> emits P (emit e).
Proof. intros He s; exists [e]; simpl; auto. Qed.

Lemma emits_bind {A B} P (m : M A) (k : A -> M B) :
  emits P m -> (forall a, emits P (k a)) -> emits P (bind m k).
Proof.
  intros Hm Hk s. unfold bind. destruct (Hm s) as [n1 [E1 F1]].
  destruct (m s) as [a s1|e s1]; simpl in *.
  - destruct (Hk a s1) as [n2 [E2 F2]]. exists (n1 ++ n2).
    rewrite E2, E1, app_assoc. split; [reflexivity|]. apply Forall_app; auto.
  - exists n1; auto.
Qed.

Lemma emits_when P b m : emits P m -> emits P (when b m).
Proof. destruct b; simpl; auto using emits_ret. Qed.

Lemma emits_lookup {A} P (l : list A) k : emits P (lookup l k).
Proof. unfold lookup; destruct (nth_error l k); auto using emits_ret, emits_raise. Qed.

Lemma emits_unpack P x : emits P (unpack x).
Proof. unfold unpack; destruct x; auto using emits_ret, emits_raise. Qed.

Lemma emits_assign {A} P (l : list A) k v : emits P (assign l k v).
Proof. unfold assign; destruct (set_nth l k v); auto using emits_ret, emits_raise. Qed.

Lemma emits_for_range P n body :
  (forall i, emits P (body i)) -> emits P (for_range n body).
Proof. intros H; induction n; simpl; auto using emits_ret, emits_bind. Qed.

Lemma emits_for_range_acc {A} P n (body : nat -> A -> M A) a :
  (forall i x, emits P (body i x)) -> emits P (for_range_acc n body a).
Proof. intros H; induction n; simpl; auto using emits_ret, emits_bind. Qed.

Lemma emits_weaken {A} (P Q : event -> Prop) (m : M A) :
  (forall e, P e -> Q e) -> emits P m -> emits Q m.
Proof.
  intros HPQ Hm s. destruct (Hm s) as [n [E F]]. exists n; split; auto.
  eapply Forall_impl; eauto.
Qed.

Lemma gives_of_emits {A B} (proj : event -> list B) (m : M A) :
  emits (fun e => proj e = []) m -> gives proj [] m.
Proof.
  intros Hm s a s' Hs. destruct (Hm s) as [n [E F]]. rewrite Hs in E; simpl in E.
  exists n; split; auto. clear E. induction F; simpl; auto. rewrite H, IHF; reflexivity.
Qed.

Lemma gives_ret {A B} (proj : event -> list B) (a : A) : gives proj [] (ret a).
Proof.
  intros s a' s' H; inversion H; subst. exists []; rewrite app_nil_r; auto.
Qed.

Lemma gives_emit {B} (proj : event -> list B) e : gives proj (proj e) (emit e).
Proof.
  intros s a s' H; inversion H; subst. exists [e]; simpl; rewrite app_nil_r; auto.
Qed.

Lemma gives_bind {A B C} (proj : event -> list C) L1 L2 (m : M A) (k : A -> M B) :
  gives proj L1 m -> (forall a, gives proj L2 (k a)) ->
  gives proj (L1 ++ L2) (bind m k).
Proof.
  intros Hm Hk s b s' H. unfold bind in H.
  destruct (m s) as [a s1|e s1] eqn:Es; [|discriminate].
  destruct (Hm _ _ _ Es) as [n1 [E1 F1]]. destruct (Hk a _ _ _ H) as [n2 [E2 F2]].
  exists (n1 ++ n2). rewrite E2, E1, app_assoc, flat_map_app, F1, F2. auto.
Qed.

Lemma gives_for_range {B} (proj : event -> list B) (L : nat -> list B) n body :
  (forall i, gives proj (L i) (body i)) ->
  gives proj (flat_map L (seq 0 n)) (for_range n body).
Proof.
  intros H; induction n.
  - apply gives_ret.
  - rewrite seq_S, flat_map_app; cbn [flat_map for_range]; rewrite app_nil_r.
    apply gives_bind; auto.
Qed.

Lemma gives_eq {A B} (proj : event -> list B) L L' (m : M A) :
  L = L' -> gives proj L m -> gives proj L' m.
Proof. intros ->; auto. Qed.

Lemma gives_for_range_acc {A B} (proj : event -> list B) (L : nat -> list B) n
    (body : nat -> A -> M A) a :
  (forall i x, gives proj (L i) (body i x)) ->
  gives proj (flat_map L (seq 0 n)) (for_range_acc n body a).
Proof.
  intros H; induction n.
  - apply gives_ret.
  - rewrite seq_S, flat_map_app; cbn [flat_map for_range_acc]; rewrite app_nil_r.
    apply gives_bind; auto.
Qed.

(** ** Which events the methods emit *)

Ltac emits_step :=
  match goal with
  | |- emits _ (bind _ _) => apply emits_bind; [|intros]
  | |- emits _ (ret _) => apply emits_ret
  | |- emits _ (raise _) => apply emits_raise
  | |- emits _ get => apply emits_get
  | |- emits _ (emit _) => apply emits_emit
  | |- emits _ (modify _) => apply emits_modify; intros; reflexivity
  | |- emits _ (when _ _) => apply emits_when
  | |- emits _ (lookup _ _) => apply emits_lookup
  | |- emits _ (unpack _) => apply emits_unpack
  | |- emits _ (assign _ _ _) => apply emits_assign
  | |- emits _ (for_range _ _) => apply emits_for_range; intros
  | |- emits _ (for_range_acc _ _ _) => apply emits_for_range_acc; intros
  | |- emits _ (if ?b then _ else _) => destruct b eqn:?
  | |- emits _ (match ?x with _ => _ end) => destruct x
  end.

Section Emits.

Variable T : dualpipe.

Lemma recv_peer p :
  is_first_stage T p = false -> peers_ok T ->
  (if p then next_rank T else prev_rank T) <> None.
Proof.
  unfold is_first_stage; intros H [Hp Hn] E; destruct p.
  - apply Hn in E; rewrite E in H; destruct (is_first_rank T); discriminate.
  - apply Hp in E; rewrite E in H; discriminate.
Qed.

Lemma send_peer p :
  is_last_stage T p = false -> peers_ok T ->
  (if p then prev_rank T else next_rank T) <> None.
Proof.
  unfold is_last_stage; intros H [Hp Hn] E; destruct p.
  - apply Hp in E; rewrite E in H; discriminate.
  - apply Hn in E; rewrite E in H; destruct (is_first_rank T); discriminate.
Qed.

Ltac method_solve :=
  unfold recv_forward, send_forward, recv_backward, send_backward,
    forward_compute_chunk, backward_compute_chunk, forward_backward_compute_chunk,
    weight_chunk, commit_and_wait_comm, update_cursors, update_queues, labels_of,
    append_irecv, append_isend, run_backward,
    wgs_set_enabled, wgs_flush, wgs_pop;
  cbv zeta;
  repeat emits_step;
  simpl; auto using recv_peer, send_peer.

Lemma recv_forward_emits ph : emits (method_event T) (recv_forward T ph).
Proof. method_solve. Qed.
Lemma send_forward_emits ph : emits (method_event T) (send_forward T ph).
Proof. method_solve. Qed.
Lemma recv_backward_emits ph : emits (method_event T) (recv_backward T ph).
Proof. method_solve. Qed.
Lemma send_backward_emits ph : emits (method_event T) (send_backward T ph).
Proof. method_solve. Qed.
Lemma commit_emits : emits (method_event T) commit_and_wait_comm.
Proof. method_solve. Qed.
Lemma weight_chunk_emits : emits (method_event T) (weight_chunk).
Proof. method_solve. Qed.
Lemma forward_compute_emits ph : emits (method_event T) (forward_compute_chunk T ph).
Proof. method_solve. Qed.
Lemma backward_compute_emits ph zb : emits (method_event T) (backward_compute_chunk T ph zb).
Proof. method_solve. Qed.
Lemma fb_compute_emits ph0 ph1 :
  emits (method_event T) (forward_backward_compute_chunk T ph0 ph1).
Proof. method_solve; auto using forward_compute_emits, backward_compute_emits. Qed.

End Emits.

Lemma method_sched T e : method_event T e -> sched_event T e.
Proof. destruct e; simpl; tauto. Qed.

Lemma method_no_iter T e : method_event T e -> iter_proj e = [].
Proof. destruct e; simpl; tauto. Qed.

Section Chunks.

Variable T : dualpipe.
Variable P : event -> Prop.
Hypothesis HP : forall e, method_event T e -> P e.

Ltac chunk_solve :=
  repeat first
    [ emits_step
    | apply (emits_weaken _ _ _ HP);
      first [ apply recv_forward_emits | apply send_forward_emits
            | apply recv_backward_emits | apply send_backward_emits
            | apply commit_emits | apply weight_chunk_emits
            | apply forward_compute_emits | apply backward_compute_emits
            | apply fb_compute_emits ] ];
  auto.

Lemma forward_chunk_emits ph r sd :
  P (EFwdChunk ph r sd) -> emits P (forward_chunk T ph r sd).
Proof. intros; unfold forward_chunk; chunk_solve. Qed.

Lemma backward_chunk_emits ph zb r sd :
  P (EBwdChunk ph zb r sd) -> emits P (backward_chunk T ph zb r sd).
Proof. intros; unfold backward_chunk; chunk_solve. Qed.

Lemma fb_chunk_emits ph0 ph1 r :
  P (EFwdBwdChunk ph0 ph1 r) -> emits P (forward_backward_chunk T ph0 ph1 r).
Proof. intros; unfold forward_backward_chunk; chunk_solve. Qed.

Lemma methods_emit_P :
  (forall ph, emits P (recv_forward T ph)) /\ (forall ph, emits P (send_forward T ph)) /\
  (forall ph, emits P (send_backward T ph)) /\ emits P weight_chunk /\
  emits P commit_and_wait_comm.
Proof. repeat split; intros; chunk_solve. Qed.

End Chunks.

Ltac sched_solve HP :=
  repeat first
    [ emits_step
    | apply forward_chunk_emits; [exact HP|]
    | apply backward_chunk_emits; [exact HP|]
    | apply fb_chunk_emits; [exact HP|]
    | apply (proj1 (methods_emit_P _ _ HP))
    | apply (proj1 (proj2 (methods_emit_P _ _ HP)))
    | apply (proj1 (proj2 (proj2 (methods_emit_P _ _ HP))))
    | apply (proj1 (proj2 (proj2 (proj2 (methods_emit_P _ _ HP)))))
    | apply (proj2 (proj2 (proj2 (proj2 (methods_emit_P _ _ HP)))))
    | apply (emits_weaken _ _ _ HP);
      first [ apply recv_forward_emits | apply send_forward_emits
            | apply recv_backward_emits | apply send_backward_emits
            | apply commit_emits | apply weight_chunk_emits
            | apply forward_compute_emits | apply backward_compute_emits
            | apply fb_compute_emits ] ].

Lemma step_sched_emits T sh ge nc crit ro :
  emits (sched_event T) (step T sh ge nc crit ro).
Proof.
  unfold step, step_phases, step_prologue, step_epilogue, run_phases,
    phase1, phase2, phase3, phase4, phase5, phase6, phase6_body, phase7, phase8,
    reset_states, wgs_clear.
  cbv zeta.
  sched_solve (method_sched T).
  all: simpl; auto.
  destruct (is_middle_rank T); auto.
Qed.

(** ** The iteration log *)

Lemma flat_map_const {A B} (x : B) (l : list A) :
  flat_map (fun _ => [x]) l = repeat x (length l).
Proof. induction l; simpl; f_equal; auto. Qed.

Lemma bind_ret_r {A} (m : M A) : forall s, bind m (fun x => ret x) s = m s.
Proof. intros s; unfold bind, ret; destruct (m s); reflexivity. Qed.

Lemma gives_ext {A B} (proj : event -> list B) L (m m' : M A) :
  (forall s, m s = m' s) -> gives proj L m' -> gives proj L m.
Proof. intros E H s a s' Hs; rewrite E in Hs; eauto. Qed.

Lemma gives_loop' k (body : nat -> M unit) c :
  (forall i, emits (fun e => iter_proj e = []) (body i)) ->
  gives iter_proj (repeat k c) (for_range c (fun i => emit (EIter k i) ;; body i)).
Proof.
  intros H. rewrite <- (length_seq c 0) at 1. rewrite <- flat_map_const.
  apply gives_for_range; intros i.
  apply (gives_eq _ ([k] ++ [])); [reflexivity|].
  apply gives_bind; [apply (gives_emit iter_proj (EIter k i))|intros _].
  apply gives_of_emits; auto.
Qed.

Section IterLog.

Variable T : dualpipe.

Let HI : forall e, method_event T e -> iter_proj e = [] := method_no_iter T.

Ltac iter_body :=
  intros; sched_solve HI; simpl; auto.

Lemma phase1_iters c : gives iter_proj (repeat 1 c) (phase1 T c).
Proof. apply gives_loop'; iter_body. Qed.

Lemma phase2_iters (c : Z) : gives iter_proj (repeat 2 (Z.to_nat c)) (phase2 T c).
Proof.
  unfold phase2. apply (gives_bind _ []).
  - apply gives_of_emits; iter_body.
  - intros _; apply gives_loop'; iter_body.
Qed.

Lemma phase3_iters c : gives iter_proj (repeat 3 c) (phase3 T c).
Proof. apply gives_loop'; iter_body. Qed.

Lemma phase4_iters c : gives iter_proj (repeat 4 c) (phase4 T c).
Proof. apply gives_loop'; iter_body. Qed.

Lemma phase5_iters c : gives iter_proj (repeat 5 c) (phase5 T c).
Proof. apply gives_loop'; iter_body. Qed.

Lemma phase6_iters (c h : Z) : gives iter_proj (repeat 6 (Z.to_nat c)) (phase6 T c h).
Proof.
  unfold phase6. apply (gives_eq _ (repeat 6 (Z.to_nat c) ++ [])); [apply app_nil_r|].
  apply gives_bind; [|intros; apply gives_ret].
  rewrite <- (length_seq (Z.to_nat c) 0) at 1. rewrite <- flat_map_const.
  apply gives_for_range_acc; intros i x.
  unfold phase6_body.
  apply (gives_eq _ ([6] ++ [])); [reflexivity|].
  apply gives_bind; [apply (gives_emit iter_proj (EIter 6 i))|intros _].
  apply gives_of_emits; iter_body.
Qed.

Lemma phase7_iters c : gives iter_proj (repeat 7 c) (phase7 T c).
Proof. apply gives_loop'; iter_body. Qed.

Lemma phase8_iters c : gives iter_proj (repeat 8 c) (phase8 c).
Proof. apply gives_loop'; iter_body. Qed.

Lemma run_phases_iters nh h k :
  gives iter_proj
    (iter_log [Z.to_nat ((nh - h - 1) * 2); Z.to_nat (h + 1); Z.to_nat (nh - h - 1);
               Z.to_nat (k - Z.of_nat (num_ranks T) + h + 1); Z.to_nat (nh - h - 1);
               Z.to_nat (h + 1); Z.to_nat (nh - h - 1); Z.to_nat (h + 1)])
    (run_phases T nh h k).
Proof.
  unfold run_phases, iter_log; cbv zeta; simpl flat_map.
  rewrite app_nil_r.
  apply gives_bind; [apply phase1_iters|intros _].
  apply gives_bind; [apply phase2_iters|intros _].
  apply gives_bind; [apply phase3_iters|intros _].
  apply gives_bind; [apply phase4_iters|intros _].
  apply gives_bind; [apply phase5_iters|intros _].
  apply gives_bind; [apply phase6_iters|intros _].
  apply gives_bind; [apply phase7_iters|intros _].
  apply phase8_iters.
Qed.

End IterLog.

Lemma prologue_result T sh ge nc crit ro s a s' :
  step_prologue T sh ge nc crit ro s = Ok a s' ->
  a = (Z.of_nat (num_ranks T) / 2,
       Z.min (Z.of_nat (rank T)) (Z.of_nat (num_ranks T) - 1 - Z.of_nat (rank T)),
       nc / 2)%Z.
Proof.
  unfold step_prologue, reset_states, wgs_clear, bind, ret, raise, modify, get.
  intros H.
  repeat match type of H with context [if ?b then _ else _] => destruct b end;
    congruence.
Qed.

Lemma prologue_iters T sh ge nc crit ro :
  gives iter_proj [] (step_prologue T sh ge nc crit ro).
Proof.
  apply gives_of_emits. unfold step_prologue, reset_states, wgs_clear; cbv zeta.
  repeat emits_step.
Qed.

Lemma epilogue_iters T crit ro : gives iter_proj [] (step_epilogue T crit ro).
Proof.
  apply gives_of_emits. unfold step_epilogue, reset_states, wgs_clear; cbv zeta.
  repeat first [emits_step | apply (proj2 (proj2 (proj2 (proj2
    (methods_emit_P _ _ (method_no_iter T))))))].
Qed.

(** The iteration log of a successful [step] follows the table. *)
Lemma step_iters T sh ge nc crit ro :
  gives iter_proj
    (iter_log (table_counts (Z.of_nat (num_ranks T)) (Z.of_nat (rank T)) nc))
    (step T sh ge nc crit ro).
Proof.
  intros s a s' H. unfold step, step_phases, bind at 1 in H. unfold bind at 1 in H.
  destruct (step_prologue T sh ge nc crit ro s) as [x s1|] eqn:E1; [|discriminate].
  pose proof (prologue_result _ _ _ _ _ _ _ _ _ E1); subst x.
  destruct (run_phases T _ _ _ s1) as [u s2|] eqn:E2; [|discriminate].
  destruct (prologue_iters T sh ge nc crit ro _ _ _ E1) as [n1 [T1 F1]].
  destruct (run_phases_iters T _ _ _ _ _ _ E2) as [n2 [T2 F2]].
  destruct (epilogue_iters T crit ro _ _ _ H) as [n3 [T3 F3]].
  exists (n1 ++ n2 ++ n3). rewrite T3, T2, T1, !app_assoc. split; [reflexivity|].
  rewrite !flat_map_app, F1, F2, F3, app_nil_r. reflexivity.
Qed.

(** ** The topology computed by [__init__] *)

Lemma set_nth_length {A} (l : list A) k v l' :
  set_nth l k v = Some l' -> length l' = length l.
Proof.
  revert k l'; induction l as [|x t IH]; intros [|k] l' H; simpl in H; try discriminate.
  - injection H as <-; reflexivity.
  - destruct (set_nth t k v) eqn:E; simpl in H; [|discriminate].
    injection H as <-; simpl; f_equal; eauto.
Qed.

Lemma set_nth_nth {A} (l : list A) k v l' j :
  set_nth l k v = Some l' ->
  nth_error l' j = if j =? k then Some v else nth_error l j.
Proof.
  revert k l' j; induction l as [|x t IH]; intros [|k] l' j H; simpl in H; try discriminate.
  - injection H as <-; destruct j; reflexivity.
  - destruct (set_nth t k v) eqn:E; simpl in H; [|discriminate].
    injection H as <-. destruct j; simpl; [reflexivity|]. apply IH; auto.
Qed.

Lemma set_nth_some {A} (l : list A) k v :
  k < length l -> exists l', set_nth l k v = Some l'.
Proof.
  revert k; induction l as [|x t IH]; intros [|k] H; simpl in *; try lia.
  - eauto.
  - destruct (IH k) as [l' E]; [lia|]. rewrite E; simpl; eauto.
Qed.

Lemma skipn_nth {A} (l : list A) i x :
  nth_error l i = Some x -> skipn i l = x :: skipn (S i) l.
Proof.
  revert i; induction l as [|y t IH]; intros [|i] H; simpl in *; try discriminate.
  - injection H as ->; reflexivity.
  - apply IH; auto.
Qed.

Lemma fill_inverse_spec m cnt : forall inv i inv',
  fill_inverse m inv i cnt = Some inv' ->
  length inv' = length inv /\
  forall j, nth_error inv' j = Some None <->
            nth_error inv j = Some None /\ ~ In j (firstn cnt (skipn i m)).
Proof.
  induction cnt as [|c IH]; intros inv i inv' H; simpl in H.
  - injection H as <-. split; [reflexivity|]. intros j; simpl. tauto.
  - destruct (nth_error m i) as [x|] eqn:Ex; [|discriminate].
    destruct (set_nth inv x (Some i)) as [inv1|] eqn:Es; [|discriminate].
    destruct (IH _ _ _ H) as [L F]. split.
    + rewrite L; eapply set_nth_length; eauto.
    + intros j. rewrite F, (skipn_nth _ _ _ Ex). simpl firstn. simpl In.
      rewrite (set_nth_nth _ _ _ _ j Es).
      destruct (Nat.eqb_spec j x) as [->|Hne].
      * split; [intros [H1 _]; discriminate|].
        intros [_ H2]; exfalso; apply H2; left; reflexivity.
      * split; intros [H1 H2]; split; auto.
        -- intros [E|E]; [congruence|tauto].
Qed.

Lemma fill_inverse_ok m cnt : forall inv i,
  i + cnt <= length m -> Forall (fun x => x < length inv) m ->
  exists inv', fill_inverse m inv i cnt = Some inv'.
Proof.
  induction cnt as [|c IH]; intros inv i Hl Hf; simpl; eauto.
  destruct (nth_error m i) as [x|] eqn:Ex.
  - assert (x < length inv) as Hx.
    { rewrite Forall_forall in Hf. apply Hf. eapply nth_error_In; eauto. }
    destruct (set_nth_some inv x (Some i) Hx) as [inv1 Es]. rewrite Es.
    apply IH; [lia|]. rewrite (set_nth_length _ _ _ _ Es); auto.
  - apply nth_error_None in Ex; lia.
Qed.

Lemma perm_in n m j : perm_ok n m -> (In j m <-> j < n).
Proof.
  intros [L [N F]]. split.
  - intros H. eapply Forall_forall in F; eauto.
  - intros H. assert (incl (seq 0 n) m) as I.
    { apply NoDup_length_incl; [exact N| rewrite length_seq; lia|].
      intros x Hx. apply in_seq. eapply Forall_forall in F; eauto. lia. }
    apply I, in_seq; lia.
Qed.

Lemma perm_seq n : perm_ok n (seq 0 n).
Proof.
  split; [apply length_seq|split; [apply seq_NoDup|]].
  apply Forall_forall; intros x Hx; apply in_seq in Hx; lia.
Qed.

Lemma py_index_nat {A} (l : list A) (k : nat) :
  py_index l (Z.of_nat k) = nth_error l k.
Proof.
  unfold py_index. destruct (Z.ltb_spec (Z.of_nat k) 0); [lia|].
  destruct (Z.ltb_spec (Z.of_nat k) 0); [lia|]. rewrite Nat2Z.id; reflexivity.
Qed.

Lemma py_index_neg1 {A} (l : list A) :
  py_index l (-1) = nth_error l (length l - 1).
Proof.
  unfold py_index; simpl. destruct (length l) as [|k] eqn:E.
  - destruct l; [reflexivity|discriminate].
  - replace (Z.of_nat (S k) + -1)%Z with (Z.of_nat k) by lia.
    destruct (Z.ltb_spec (Z.of_nat k) 0); [lia|].
    rewrite Nat2Z.id; f_equal; lia.
Qed.

Ltac bool_lia :=
  repeat match goal with
  | |- context [Z.eqb ?a ?b] => destruct (Z.eqb_spec a b)
  | |- context [Z.ltb ?a ?b] => destruct (Z.ltb_spec a b)
  | |- context [Z.leb ?a ?b] => destruct (Z.leb_spec a b)
  | |- context [Nat.eqb ?a ?b] => destruct (Nat.eqb_spec a b)
  | |- context [Nat.ltb ?a ?b] => destruct (Nat.ltb_spec a b)
  | |- context [Nat.leb ?a ?b] => destruct (Nat.leb_spec a b)
  end; cbn [andb orb negb]; try reflexivity; try lia.

Lemma init_topology ty0 ty1 ha n g m T :
  perm_ok n (match m with None => seq 0 n | Some l => l end) ->
  init ty0 ty1 ha n g m = Some T ->
  num_ranks T = n /\ rank T < n /\
  nth_error (match m with None => seq 0 n | Some l => l end) g = Some (rank T) /\
  (prev_rank T = None <-> rank T = 0) /\
  (next_rank T = None <-> rank T = n - 1) /\
  is_first_rank T = (rank T =? 0) /\
  is_last_rank T = (rank T =? n - 1) /\
  is_in_second_half T = (n / 2 <=? rank T) /\
  is_middle_rank T = (2 <? n) && ((rank T =? n / 2 - 1) || (rank T =? n / 2)) /\
  overlaped_forward_backward T = Nat.eqb ty0 ty1 && ha ty0.
Proof.
  intros HP H. unfold init in H. cbv zeta in H.
  set (mp := match m with None => seq 0 n | Some l => l end) in *. clearbody mp.
  destruct (fill_inverse mp (repeat None (n + 1)) 0 n) as [inv|] eqn:Ef; [|discriminate].
  destruct (nth_error mp g) as [r|] eqn:Eg; [|discriminate].
  destruct (fill_inverse_spec _ _ _ _ _ Ef) as [Linv Finv].
  rewrite repeat_length in Linv.
  assert (Hr : r < n) by (apply (perm_in n mp r HP), (nth_error_In _ _ Eg)).
  assert (Hm : firstn n (skipn 0 mp) = mp).
  { apply firstn_all2. destruct HP as [L _]; lia. }
  rewrite Hm in Finv.
  assert (Hnone : forall j x, nth_error inv j = Some x -> (x = None <-> j = n)).
  { intros j x Hj. assert (j < n + 1).
    { rewrite <- Linv. apply nth_error_Some. congruence. }
    split.
    - intros ->. apply Finv in Hj. destruct Hj as [_ Hn].
      rewrite (perm_in n mp j HP) in Hn. lia.
    - intros ->. assert (nth_error inv n = Some None) as E.
      { apply Finv. split; [apply nth_error_repeat; lia|].
        rewrite (perm_in n mp n HP). lia. }
      congruence. }
  destruct (py_index inv 0) as [fr|] eqn:E0; [|discriminate].
  destruct (py_index inv (Z.of_nat r - 1)) as [pr|] eqn:Ep; [|discriminate].
  destruct (py_index inv (Z.of_nat r + 1)) as [nr|] eqn:En; [|discriminate].
  destruct (py_index inv (Z.of_nat n - 1)) as [lr|] eqn:El; [|discriminate].
  injection H as <-.
  cbn [num_ranks rank prev_rank next_rank is_first_rank is_last_rank
       is_in_second_half is_middle_rank overlaped_forward_backward].
  split; [reflexivity|]. split; [exact Hr|]. split; [reflexivity|].
  split.
  { destruct r as [|r'].
    - simpl in Ep. rewrite py_index_neg1, Linv in Ep.
      replace (n + 1 - 1) with n in Ep by lia.
      rewrite (Hnone _ _ Ep). tauto.
    - replace (Z.of_nat (S r') - 1)%Z with (Z.of_nat r') in Ep by lia.
      rewrite py_index_nat in Ep. rewrite (Hnone _ _ Ep). lia. }
  split.
  { replace (Z.of_nat r + 1)%Z with (Z.of_nat (r + 1)) in En by lia.
    rewrite py_index_nat in En. rewrite (Hnone _ _ En). lia. }
  assert (Hd : 2 * (n / 2) <= n < 2 * (n / 2) + 2).
  { pose proof (Nat.div_mod n 2 ltac:(lia)).
    pose proof (Nat.mod_upper_bound n 2 ltac:(lia)). lia. }
  replace (Z.of_nat n / 2)%Z with (Z.of_nat (n / 2))
    by (rewrite Nat2Z.inj_div; reflexivity).
  repeat split; bool_lia.
Qed.

Lemma init_peers_ok ty0 ty1 ha n g m T :
  perm_ok n (match m with None => seq 0 n | Some l => l end) ->
  init ty0 ty1 ha n g m = Some T -> peers_ok T.
Proof.
  intros HP HT.
  destruct (init_topology _ _ _ _ _ _ _ HP HT)
    as (_ & _ & _ & Hp & Hn & Hf & Hl & _).
  split; intros E; [rewrite Hf; apply Hp in E | rewrite Hl; apply Hn in E];
    rewrite E; apply Nat.eqb_refl.
Qed.

(** ** Claims about the topology *)

(** C9: a rank is a middle rank exactly when [numRanks > 2] and its
    logical rank is [numRanks/2 - 1] or [numRanks/2]; in a group of two
    ranks no [step] ever runs the middle-rank branch of phase 4
    ([EMiddleBranch]) nor the send after phase 2's direction-0 forward
    ([_forward_chunk(0, recv=False, send=True)]). *)
Theorem middle_rank_iff ty0 ty1 ha n g m T
  (HP : perm_ok n (match m with None => seq 0 n | Some l => l end))
  (HT : init ty0 ty1 ha n g m = Some T) :
  (is_middle_rank T = true <-> 2 < n /\ (rank T = n / 2 - 1 \/ rank T = n / 2)) /\
  (n = 2 -> forall sh ge nc crit ro,
     emits (fun e => e <> EMiddleBranch /\ e <> EFwdChunk false false true)
           (step T sh ge nc crit ro)).
Proof.
  destruct (init_topology _ _ _ _ _ _ _ HP HT) as (_ & _ & _ & _ & _ & _ & _ & _ & Hm & _).
  split.
  - rewrite Hm. rewrite andb_true_iff, orb_true_iff, Nat.ltb_lt, !Nat.eqb_eq. tauto.
  - intros -> sh ge nc crit ro. simpl in Hm.
    eapply emits_weaken; [|apply step_sched_emits].
    intros e He. destruct e as [| ph r sd | | | | | | |]; simpl in He;
      try (split; discriminate).
    + destruct ph, r, sd; try (split; discriminate). rewrite Hm in He; discriminate.
    + rewrite Hm in He; discriminate.
Qed.

Lemma middle_rank_iff_witness :
  init 0 0 (fun _ => true) 4 1 None = Some (demo_rank 4 1) /\
  (is_middle_rank (demo_rank 4 1) = true <->
   2 < 4 /\ (rank (demo_rank 4 1) = 4 / 2 - 1 \/ rank (demo_rank 4 1) = 4 / 2)).
Proof.
  assert (HT : init 0 0 (fun _ => true) 4 1 None = Some (demo_rank 4 1))
    by (vm_compute; reflexivity).
  split; [exact HT|].
  exact (proj1 (middle_rank_iff 0 0 (fun _ => true) 4 1 None _ (perm_seq 4) HT)).
Defined.

(** C10: the neighbour [prev_rank] is [None] exactly on logical rank 0 and
    [next_rank] exactly on logical rank [numRanks - 1]; [_recv_forward]
    and [_send_backward] return at once on the first stage of their
    physical phase, [_send_forward] and [_recv_backward] on its last
    stage; and no [step] ever posts a descriptor to a [None] peer. *)
Theorem no_post_to_none ty0 ty1 ha n g m T
  (HP : perm_ok n (match m with None => seq 0 n | Some l => l end))
  (HT : init ty0 ty1 ha n g m = Some T) :
  (prev_rank T = None <-> rank T = 0) /\
  (next_rank T = None <-> rank T = n - 1) /\
  (forall ph s, is_first_stage T (xorb ph (second_half T)) = true ->
     recv_forward T ph s = Ok tt s /\ send_backward T ph s = Ok tt s) /\
  (forall ph s, is_last_stage T (xorb ph (second_half T)) = true ->
     send_forward T ph s = Ok tt s /\ recv_backward T ph s = Ok tt s) /\
  (forall sh ge nc crit ro, emits post_ok (step T sh ge nc crit ro)).
Proof.
  destruct (init_topology _ _ _ _ _ _ _ HP HT) as (_ & _ & _ & Hp & Hn & _).
  pose proof (init_peers_ok _ _ _ _ _ _ _ HP HT) as Hpeers.
  split; [exact Hp|]. split; [exact Hn|].
  split; [|split].
  - intros ph s E. unfold recv_forward, send_backward, bind, get; cbv zeta.
    rewrite E. destruct (forward_only s); split; reflexivity.
  - intros ph s E. unfold send_forward, recv_backward, bind, get; cbv zeta.
    rewrite E. destruct (forward_only s); split; reflexivity.
  - intros sh ge nc crit ro. eapply emits_weaken; [|apply step_sched_emits].
    intros e He. destruct e; simpl in *; auto.
Qed.

Lemma no_post_to_none_witness :
  init 0 0 (fun _ => true) 4 0 None = Some (demo_rank 4 0) /\
  (prev_rank (demo_rank 4 0) = None <-> rank (demo_rank 4 0) = 0) /\
  emits post_ok (step (demo_rank 4 0) true true 8 true false).
Proof.
  assert (HT : init 0 0 (fun _ => true) 4 0 None = Some (demo_rank 4 0))
    by (vm_compute; reflexivity).
  destruct (no_post_to_none 0 0 (fun _ => true) 4 0 None _ (perm_seq 4) HT)
    as (Hp & _ & _ & _ & Hs).
  split; [exact HT|]. split; [exact Hp|]. apply Hs.
Defined.

(** ** Phase 6 *)

Lemma method_no_bwd T e : method_event T e -> bwd_proj e = [].
Proof. destruct e; simpl; tauto. Qed.

Lemma backward_chunk_bwd T ph zb r sd :
  gives bwd_proj [(ph, zb)] (backward_chunk T ph zb r sd).
Proof.
  unfold backward_chunk. apply (gives_eq _ ([(ph, zb)] ++ [])); [reflexivity|].
  apply gives_bind; [apply (gives_emit bwd_proj (EBwdChunk ph zb r sd))|intros _].
  apply gives_of_emits. sched_solve (method_no_bwd T).
Qed.

Lemma phase6_loop T h n : (0 <= (h + 1) / 2)%Z ->
  forall s a s',
  for_range_acc n (phase6_body T (h + 1) h) false s = Ok a s' ->
  a = ((h + 1) / 2 <? Z.of_nat n)%Z /\
  exists new, trace s' = trace s ++ new /\
    flat_map bwd_proj new =
    flat_map (fun i => [(true, zb_dir1 h i); (false, zb_dir0 h i)]) (seq 0 n).
Proof.
  intros Hm. induction n as [|n IH]; intros s a s' H.
  - simpl in H. unfold ret in H. injection H as <- <-. split.
    + symmetry; apply Z.ltb_ge; simpl; lia.
    + exists []; rewrite app_nil_r; auto.
  - cbn [for_range_acc] in H. unfold bind at 1 in H.
    destruct (for_range_acc n (phase6_body T (h + 1) h) false s) as [x s1|] eqn:E1;
      [|discriminate].
    destruct (IH _ _ _ E1) as [-> [n1 [T1 F1]]].
    unfold phase6_body, bind, emit, modify, ret in H. cbv zeta in H.
    set (zb1 := if (Z.of_nat n =? (h + 1) / 2)%Z && (h mod 2 =? 1)%Z then true
                else ((h + 1) / 2 <? Z.of_nat n)%Z) in H.
    set (zb2 := if (Z.of_nat n =? (h + 1) / 2)%Z && (h mod 2 =? 0)%Z then true
                else zb1) in H.
    set (s2 := set_trace s1 (trace s1 ++ [EIter 6 n])) in H.
    destruct (backward_chunk T true zb1 true true s2) as [u s3|] eqn:E3; [|discriminate].
    destruct (backward_chunk T false zb2 true true s3) as [v s4|] eqn:E4; [|discriminate].
    injection H as <- <-.
    destruct (backward_chunk_bwd T true zb1 true true _ _ _ E3) as [n3 [T3 F3]].
    destruct (backward_chunk_bwd T false zb2 true true _ _ _ E4) as [n4 [T4 F4]].
    assert (Hz1 : zb1 = zb_dir1 h n).
    { unfold zb1, zb_dir1.
      destruct ((Z.of_nat n =? (h + 1) / 2)%Z && (h mod 2 =? 1)%Z); reflexivity. }
    assert (Hz2 : zb2 = zb_dir0 h n).
    { unfold zb2, zb_dir0. rewrite Hz1. unfold zb_dir1.
      pose proof (Z.mod_pos_bound h 2 ltac:(lia)).
      destruct (Z.eqb_spec (Z.of_nat n) ((h + 1) / 2));
      destruct (Z.ltb_spec ((h + 1) / 2) (Z.of_nat n));
      destruct (Z.leb_spec ((h + 1) / 2) (Z.of_nat n));
      destruct (Z.eqb_spec (h mod 2) 1); destruct (Z.eqb_spec (h mod 2) 0);
      simpl; try reflexivity; lia. }
    split.
    + rewrite Hz2. unfold zb_dir0.
      destruct (Z.leb_spec ((h + 1) / 2) (Z.of_nat n));
      destruct (Z.ltb_spec ((h + 1) / 2) (Z.of_nat (S n))); lia.
    + exists (n1 ++ [EIter 6 n] ++ n3 ++ n4). rewrite T4, T3. unfold s2; cbn [trace set_trace].
      rewrite T1, <- !app_assoc. split; [reflexivity|].
      rewrite seq_S, !flat_map_app, F1. f_equal.
      cbn [flat_map bwd_proj app]. rewrite F3, F4, Hz1, Hz2.
      reflexivity.
Qed.

(** C8: phase 6 runs [halfRank + 1] iterations, each a direction-1
    backward then a direction-0 backward; its zero-bubble flags are off
    before iteration [(halfRank+1)/2]; in that iteration they are on from
    the direction-1 backward when [halfRank] is odd and from the
    direction-0 backward when it is even; they stay on afterwards.  The
    [_backward_chunk] calls of a successful phase 6, as
    [(phase, enable_zb)] pairs, are those of [phase6_spec]. *)
Theorem phase6_zero_bubble T h :
  gives bwd_proj (phase6_spec h) (phase6 T (h + 1) h).
Proof.
  intros s a s' H. unfold phase6, bind in H.
  destruct (for_range_acc _ _ false s) as [x s1|] eqn:E1; [|discriminate].
  unfold ret in H; injection H as <- <-. unfold phase6_spec.
  destruct (Z.leb_spec 0 ((h + 1) / 2)) as [Hm|Hm].
  - destruct (phase6_loop T h _ Hm _ _ _ E1) as [_ G]; exact G.
  - assert (h + 1 < 0)%Z.
    { destruct (Z.ltb_spec (h + 1) 0); [assumption|].
      pose proof (Z.div_pos (h + 1) 2 ltac:(lia) ltac:(lia)); lia. }
    replace (Z.to_nat (h + 1)) with 0 in * by lia.
    simpl in E1; unfold ret in E1; injection E1 as _ <-.
    exists []; rewrite app_nil_r; auto.
Qed.

(** ** The compute paths *)

Lemma bind_get {B} (k : state -> M B) s : bind get k s = k s s.
Proof. reflexivity. Qed.

Lemma gives_bind_nil {A B C} (proj : event -> list C) L (m : M A) (k : A -> M B) :
  gives proj [] m -> (forall a, gives proj L (k a)) -> gives proj L (bind m k).
Proof. intros; apply (gives_eq _ ([] ++ L)); [reflexivity|]; apply gives_bind; auto. Qed.

Lemma gives_bind_emit {B C} (proj : event -> list C) e L (k : unit -> M B) :
  gives proj L (k tt) -> gives proj (proj e ++ L) (bind (emit e) k).
Proof. intros; apply gives_bind; [apply gives_emit|intros []; auto]. Qed.

Ltac compute_free :=
  unfold update_cursors, update_queues, labels_of; cbv zeta;
  repeat emits_step; reflexivity.

Ltac gives_walk :=
  repeat first
    [ apply gives_ret
    | match goal with |- gives _ [] _ => apply gives_of_emits; solve [compute_free] end
    | apply gives_bind_nil; [apply gives_of_emits; solve [compute_free] | intros]
    | match goal with |- gives ?proj ?L (bind (emit ?e) ?k) =>
        apply (gives_eq proj (proj e ++ [])); [reflexivity|]; apply gives_bind_emit end
    | match goal with |- gives _ _ (if ?b then _ else _) => destruct b end ].

Lemma forward_compute_gives T ph :
  gives compute_proj [CFwd (xorb ph (second_half T))] (forward_compute_chunk T ph).
Proof. unfold forward_compute_chunk; cbv zeta. gives_walk. Qed.

Lemma fused_compute_gives T ph0 ph1 s a s' :
  forward_only s = false -> overlaped_forward_backward T = true ->
  forward_backward_compute_chunk T ph0 ph1 s = Ok a s' ->
  exists new, trace s' = trace s ++ new /\
    flat_map compute_proj new =
      [CFused (xorb ph0 (second_half T)) (xorb ph1 (second_half T))].
Proof.
  intros Hf Ho H. unfold forward_backward_compute_chunk in H.
  rewrite bind_get, Hf, Ho in H. cbv beta iota zeta in H.
  refine ((_ : gives compute_proj
                 [CFused (xorb ph0 (second_half T)) (xorb ph1 (second_half T))] _)
            s a s' H).
  gives_walk.
Qed.

Lemma init_overlaped ty0 ty1 ha n g m T :
  init ty0 ty1 ha n g m = Some T ->
  overlaped_forward_backward T = Nat.eqb ty0 ty1 && ha ty0.
Proof.
  unfold init; cbv zeta; intros H.
  repeat match type of H with context [match ?x with _ => _ end] =>
    destruct x; try discriminate H end.
  injection H as <-; reflexivity.
Qed.

(** C7 (amended): [overlaped_forward_backward] holds exactly when the two
    shard modules have the same type and that type defines the fused
    operation.  In forward-only mode [_forward_backward_compute_chunk] is
    the forward compute alone and makes the single forward compute call;
    without the flag it is the forward compute followed by the backward
    compute without zero bubble; with the flag a successful call makes one
    compute call, the fused one. *)
Theorem fused_path ty0 ty1 ha n g m T (HT : init ty0 ty1 ha n g m = Some T) :
  overlaped_forward_backward T = Nat.eqb ty0 ty1 && ha ty0 /\
  (forall ph0 ph1 s, forward_only s = true ->
     forward_backward_compute_chunk T ph0 ph1 s = forward_compute_chunk T ph0 s /\
     forall a s', forward_backward_compute_chunk T ph0 ph1 s = Ok a s' ->
     exists new, trace s' = trace s ++ new /\
       flat_map compute_proj new =
       fb_calls (overlaped_forward_backward T) true
         (xorb ph0 (second_half T)) (xorb ph1 (second_half T))) /\
  (forall ph0 ph1 s, forward_only s = false -> overlaped_forward_backward T = false ->
     forward_backward_compute_chunk T ph0 ph1 s =
     (forward_compute_chunk T ph0 ;; backward_compute_chunk T ph1 false) s) /\
  (forall ph0 ph1 s a s', forward_only s = false -> overlaped_forward_backward T = true ->
     forward_backward_compute_chunk T ph0 ph1 s = Ok a s' ->
     exists new, trace s' = trace s ++ new /\
       flat_map compute_proj new =
       fb_calls true false (xorb ph0 (second_half T)) (xorb ph1 (second_half T))).
Proof.
  split; [exact (init_overlaped _ _ _ _ _ _ _ HT)|].
  split; [|split].
  - intros ph0 ph1 s Hf.
    assert (E : forward_backward_compute_chunk T ph0 ph1 s = forward_compute_chunk T ph0 s).
    { unfold forward_backward_compute_chunk. rewrite bind_get, Hf. reflexivity. }
    split; [exact E|]. intros a s' H. rewrite E in H.
    exact (forward_compute_gives T ph0 _ _ _ H).
  - intros ph0 ph1 s Hf Ho. unfold forward_backward_compute_chunk.
    rewrite bind_get, Hf, Ho. reflexivity.
  - intros ph0 ph1 s a s' Hf Ho H. exact (fused_compute_gives T ph0 ph1 s a s' Hf Ho H).
Qed.

Lemma fused_path_witness :
  init 0 0 (fun _ => true) 2 0 None = Some (demo_rank 2 0) /\
  overlaped_forward_backward (demo_rank 2 0) = true.
Proof.
  assert (HT : init 0 0 (fun _ => true) 2 0 None = Some (demo_rank 2 0))
    by (vm_compute; reflexivity).
  split; [exact HT|].
  rewrite (proj1 (fused_path 0 0 (fun _ => true) 2 0 None _ HT)). reflexivity.
Defined.

(** C7, counterexample: shard modules of two different types that both
    define the fused operation; the flag is off and a training step of
    rank 0 of two ranks runs [_forward_backward_chunk] without any fused
    compute call. *)
Lemma fused_path_counterexample :
  (fun _ : nat => true) 0 = true /\ (fun _ : nat => true) 1 = true /\
  match init 0 1 (fun _ => true) 2 0 None with
  | Some T =>
      overlaped_forward_backward T = false /\
      existsb is_fb_chunk (trace (outstate (step T true true 4 true false fresh))) = true /\
      existsb is_fused_call (trace (outstate (step T true true 4 true false fresh))) = false
  | None => False
  end.
Proof. split; [reflexivity|]. split; [reflexivity|]. vm_compute. auto. Qed.

(** ** Concrete schedules *)

(** C1, counterexample: on logical rank 1 of 4 ranks ([halfRank = 1]),
    with 8 chunks, phases 4 and 5 run [halfNumChunks - numRanks +
    halfRank + 1 = 2] and [numHalfRanks - halfRank - 1 = 0] iterations,
    not 1 and 1. *)
Lemma phase_counts_4_8_counterexample :
  ok_and (step (demo_rank 4 1) true true 8 true false fresh)
    (fun s => phase_counts (trace s) = [0; 2; 0; 2; 0; 2; 0; 2] /\
              phase_counts (trace s) <> [0; 2; 0; 1; 1; 2; 0; 2]).
Proof. vm_compute. split; [reflexivity|discriminate]. Qed.

(** C1 (amended): with 4 ranks and 8 chunks every [step] returns, and its
    phase iteration counts are [2,1,1,1,1,1,1,1] on logical ranks 0 and 3
    ([halfRank = 0]) and [0,2,0,2,0,2,0,2] on ranks 1 and 2
    ([halfRank = 1]), with or without the fused operation, with or
    without gradients, returning outputs or not. *)
Theorem phase_counts_4_8 (ov grad ro : bool) :
  Forall (fun r =>
    match init 0 (if ov then 0 else 1) (fun _ => true) 4 r None with
    | Some T =>
        ok_and (step T true grad 8 true ro fresh)
          (fun s => phase_counts (trace s) =
                    if (r =? 0) || (r =? 3) then [2; 1; 1; 1; 1; 1; 1; 1]
                    else [0; 2; 0; 2; 0; 2; 0; 2])
    | None => False
    end) [0; 1; 2; 3].
Proof.
  destruct ov, grad, ro;
    repeat (apply Forall_cons; [vm_compute; reflexivity|]); apply Forall_nil.
Qed.

(** ** The weight-gradient queue *)

(** C5: the prologue of [step] leaves the weight-gradient store empty
    before the first phase; after phase 8 a non-empty queue makes [step]
    fail with the assertion; a [step] that returns leaves the queue
    empty. *)
Theorem wgs_queue_empty T sh ge nc crit ro :
  (forall s a s', step_prologue T sh ge nc crit ro s = Ok a s' ->
     funcs_queue (wgs s') = [] /\ cache (wgs s') = []) /\
  (forall s u rest, funcs_queue (wgs s) = u :: rest ->
     step_epilogue T crit ro s = Err AssertQueueEmpty s) /\
  (forall s a s', step T sh ge nc crit ro s = Ok a s' -> funcs_queue (wgs s') = []).
Proof.
  split; [|split].
  - intros s a s'. unfold step_prologue, reset_states, wgs_clear, bind, ret, raise, modify, get.
    intros H.
    repeat match type of H with context [if ?b then _ else _] => destruct b end;
      try discriminate H; injection H as _ <-; split; reflexivity.
  - intros s u rest E. unfold step_epilogue. rewrite bind_get, E. reflexivity.
  - intros s a s' H. unfold step, bind at 1 in H.
    destruct (step_phases T sh ge nc crit ro s) as [x s1|] eqn:E1; [|discriminate].
    unfold step_epilogue in H. rewrite bind_get in H.
    destruct (funcs_queue (wgs s1)); [|discriminate].
    unfold commit_and_wait_comm, reset_states, wgs_clear, bind, get, ret, modify in H.
    destruct (comm_ops s1); injection H as _ <-; reflexivity.
Qed.

(** ** Failing fast *)

Lemma bind_err {A B} (m : M A) (k : A -> M B) s e s' :
  m s = Err e s' -> bind m k s = Err e s'.
Proof. unfold bind; intros ->; reflexivity. Qed.

Lemma prologue_fails T sh ge nc crit ro s :
  bad_call T sh ge nc crit ->
  exists e s', step_prologue T sh ge nc crit ro s = Err e s' /\ same_but_mode s s'.
Proof.
  intros Hbad. unfold step_prologue, bind, ret, raise, modify, get.
  unfold bad_call in Hbad. cbv zeta.
  destruct sh; [|eexists _, _; split; [reflexivity|]; repeat split].
  destruct (Z.eqb_spec (Z.of_nat (num_ranks T) mod 2) 0) as [Hr|Hr]; cbn [negb];
    [|eexists _, _; split; [reflexivity|]; repeat split].
  destruct ((0 <? nc)%Z && (nc mod 2 =? 0)%Z && (Z.of_nat (num_ranks T) * 2 <=? nc)%Z)
    eqn:Hc; cbn [negb];
    [|eexists _, _; split; [reflexivity|]; repeat split].
  rewrite !andb_true_iff, Z.ltb_lt, Z.eqb_eq, Z.leb_le in Hc.
  cbn [forward_only set_halves set_mode].
  destruct Hbad as [Hb|[Hb|[Hb|(Hg & He & Hk)]]]; try discriminate; try tauto.
  subst ge crit. rewrite He. cbn [negb andb].
  eexists _, _; split; [reflexivity|]; repeat split.
Qed.

(** C6, counterexample: with three ranks and gradients off, [step] fails
    on the rank-count assertion after it has set [forward_only]. *)
Lemma step_fails_fast_counterexample :
  match init 0 0 (fun _ => true) 3 0 None with
  | Some T =>
      match step T true false 6 false false fresh with
      | Err AssertRanks s' => forward_only s' = true /\ forward_only fresh = false
      | _ => False
      end
  | None => False
  end.
Proof. vm_compute. auto. Qed.

(** C6 (amended): when a precondition is violated, [step] fails before
    [_reset_states], before any phase and before any communication; the
    state it leaves differs from the one it started from at most in
    [forward_only], [return_outputs], [num_half_ranks] and [half_rank]. *)
Theorem step_fails_fast T sh ge nc crit ro s
  (Hbad : bad_call T sh ge nc crit) :
  exists e s', step T sh ge nc crit ro s = Err e s' /\ same_but_mode s s'.
Proof.
  destruct (prologue_fails T sh ge nc crit ro s Hbad) as (e & s' & E & Hs).
  exists e, s'. split; [|exact Hs].
  unfold step, step_phases. rewrite (bind_err _ _ _ _ _ (bind_err _ _ _ _ _ E)).
  reflexivity.
Qed.

Lemma step_fails_fast_witness :
  bad_call (demo_rank 3 0) true true 6 true /\
  exists e s', step (demo_rank 3 0) true true 6 true false fresh = Err e s' /\
               same_but_mode fresh s'.
Proof.
  assert (Hb : bad_call (demo_rank 3 0) true true 6 true).
  { right; left. vm_compute. discriminate. }
  split; [exact Hb|]. exact (step_fails_fast _ _ _ _ _ _ fresh Hb).
Defined.

(* ------------------------------------------------------------------ *)
(** ** Total correctness of the schedule *)

Lemma live_nil k : live [] k.
Proof. intros [|i] x H; discriminate. Qed.

Lemma live_app l k x : live l k -> k <= length l -> live (l ++ [Some x]) k.
Proof.
  intros H Hk i y E. destruct (Nat.ltb_spec i (length l)).
  - rewrite nth_error_app1 in E by lia. apply H; auto.
  - rewrite nth_error_app2 in E by lia. destruct (i - length l) as [|j] eqn:Ej; simpl in E.
    + injection E as <-. split; [discriminate|lia].
    + destruct j; discriminate.
Qed.

Lemma live_set l k l' : live l k -> set_nth l k None = Some l' -> live l' (S k).
Proof.
  intros H Es i y E. rewrite (set_nth_nth _ _ _ _ i Es) in E.
  destruct (Nat.eqb_spec i k).
  - injection E as <-. split; [lia|auto].
  - rewrite (H _ _ E). lia.
Qed.

Lemma live_some l k i : live l k -> k <= i -> i < length l ->
  exists x, nth_error l i = Some (Some x).
Proof.
  intros H Hk Hi. destruct (nth_error l i) as [[x|]|] eqn:E; eauto.
  - apply H in E. destruct E as [E _]. specialize (E eq_refl). lia.
  - apply nth_error_None in E; lia.
Qed.

Lemma live_map_some l : live (map Some l) 0.
Proof.
  intros i y E. rewrite nth_error_map in E. destruct (nth_error l i); simpl in E; [|discriminate].
  injection E as <-. split; [discriminate|lia].
Qed.

Lemma sel_upd {A} p q (g : A -> A) x :
  sel q (upd p g x) = if Bool.eqb q p then g (sel p x) else sel q x.
Proof. destruct p, q, x; reflexivity. Qed.

Lemma upd_upd {A} p (g h : A -> A) x : upd p h (upd p g x) = upd p (fun y => h (g y)) x.
Proof. destruct p, x; reflexivity. Qed.

Lemma sel_upd_same {A} p (g : A -> A) x : sel p (upd p g x) = g (sel p x).
Proof. destruct p, x; reflexivity. Qed.

Lemma sel_upd_other {A} p q (g : A -> A) x : q <> p -> sel q (upd p g x) = sel q x.
Proof. destruct p, q, x; simpl; congruence. Qed.

Section Prims.
Variables (T : dualpipe) (K : nat) (fo ro : bool).


Lemma loss_len_same crit p g c :
  f_id (g (sel p c)) = f_id (sel p c) -> loss_len T crit (upd p g c) = loss_len T crit c.
Proof. unfold loss_len; destruct p, c; simpl; intros ->; reflexivity. Qed.

Lemma rel_step c w w' s p g h s' :
  rel T K fo ro c w s ->
  forward_only s' = fo -> return_outputs s' = ro ->
  cur s' = upd p g c -> chunks s' = upd p h (chunks s) ->
  length (funcs_queue (wgs s')) = w' -> cache (wgs s') = [] ->
  labels s' = labels s -> criterion s' = criterion s ->
  phase_inv T K fo ro p (g (sel p c)) (h (sel p (chunks s))) ->
  length (loss_chunks s') = loss_len T (criterion s) (upd p g c) ->
  rel T K fo ro (upd p g c) w' s'.
Proof.
  intros (Hfo & Hro & Hc & Hw & Hca & Hph & Hloss & Hlab & Hcrit)
    E1 E2 E3 E4 E5 E6 E7 E8 Hp Hl.
  split; [auto|]. split; [auto|]. split; [auto|]. split; [auto|]. split; [auto|].
  split.
  { intros q. rewrite E4, !sel_upd. destruct (Bool.eqb_spec q p) as [->|]; auto. }
  split; [rewrite E8; exact Hl|].
  split; [rewrite E7, E8; exact Hlab|].
  rewrite E8; exact Hcrit.
Qed.

Lemma rel_snap c w s : rel T K fo ro c w s -> snap_ok T (ECursors c).
Proof.
  intros (_ & _ & _ & _ & _ & Hph & _). simpl.
  split; [apply (Hph false)|apply (Hph true)].
Qed.

Lemma rel_frame c w s s' :
  rel T K fo ro c w s ->
  forward_only s' = forward_only s -> return_outputs s' = return_outputs s ->
  cur s' = cur s -> chunks s' = chunks s -> wgs s' = wgs s ->
  labels s' = labels s -> criterion s' = criterion s -> loss_chunks s' = loss_chunks s ->
  rel T K fo ro c w s'.
Proof.
  unfold rel; intros H E1 E2 E3 E4 E5 E6 E7 E8.
  rewrite E1, E2, E3, E4, E5, E6, E7, E8; exact H.
Qed.

(* pure phase lemmas *)
Ltac pinv_intro H :=
  destruct H as (L1 & V1 & L2 & V2 & L3 & V3 & L4 & V4 & B & F & O1 & O2 & O3 & O4).

Lemma pinv_mk p c q :
  length (inp q) = (if is_first_stage T p then K else recv_f_id c) ->
  live (inp q) (if fo then f_id c else b_id c) ->
  length (out q) = (if is_last_stage T p && negb ro then 0 else f_id c) ->
  live (out q) (if ro then 0 else b_id c) ->
  length (og q) = recv_b_id c -> live (og q) (b_id c) ->
  length (ig q) = b_id c -> live (ig q) (send_b_id c) ->
  b_id c <= f_id c ->
  (is_first_stage T p = true -> f_id c <= K) ->
  send_f_id c <= f_id c -> send_b_id c <= b_id c ->
  (if is_first_stage T p then recv_f_id c = 0 /\ send_b_id c = 0
   else f_id c <= recv_f_id c) ->
  (if is_last_stage T p then recv_b_id c = 0 /\ send_f_id c = 0
   else b_id c <= recv_b_id c) ->
  phase_inv T K fo ro p c q.
Proof. unfold phase_inv, cursor_order; tauto. Qed.

Lemma pinv_recv_f p c q x :
  phase_inv T K fo ro p c q -> is_first_stage T p = false ->
  phase_inv T K fo ro p (incr_recv_f c) (with_inp (inp q ++ [Some x]) q).
Proof.
  intros H Ef. pinv_intro H. destruct c as [f b sf sb rf rb]; destruct q as [i o gi go].
  cbn in *. rewrite Ef in *.
  apply pinv_mk; cbn; rewrite ?Ef; auto; try lia.
  - rewrite length_app, L1; simpl; lia.
  - apply live_app; auto. destruct fo; lia.
Qed.


Lemma rel_intro c w w' s c' s' :
  rel T K fo ro c w s ->
  forward_only s' = fo -> return_outputs s' = ro -> cur s' = c' ->
  length (funcs_queue (wgs s')) = w' -> cache (wgs s') = [] ->
  labels s' = labels s -> criterion s' = criterion s ->
  (forall q, phase_inv T K fo ro q (sel q c') (sel q (chunks s'))) ->
  length (loss_chunks s') = loss_len T (criterion s) c' ->
  rel T K fo ro c' w' s'.
Proof.
  intros (Hfo & Hro & Hc & Hw & Hca & Hph & Hloss & Hlab & Hcrit)
    E1 E2 E3 E4 E5 E6 E7 Hp Hl.
  split; [auto|]. split; [auto|]. split; [auto|]. split; [auto|]. split; [auto|].
  split; [exact Hp|].
  split; [rewrite E7; exact Hl|].
  split; [rewrite E6, E7; exact Hlab|].
  rewrite E7; exact Hcrit.
Qed.

Lemma pinv_send_f p c q :
  phase_inv T K fo ro p c q -> is_last_stage T p = false ->
  send_f_id c < f_id c -> phase_inv T K fo ro p (incr_send_f c) q.
Proof.
  intros H El Hs. pinv_intro H. destruct c as [f b sf sb rf rb]; destruct q as [i o gi go].
  cbn in *. rewrite El in *.
  apply pinv_mk; cbn; rewrite ?El; auto; try lia.
Qed.

Lemma pinv_recv_b p c q x :
  phase_inv T K fo ro p c q -> is_last_stage T p = false ->
  phase_inv T K fo ro p (incr_recv_b c) (with_og (og q ++ [Some x]) q).
Proof.
  intros H El. pinv_intro H. destruct c as [f b sf sb rf rb]; destruct q as [i o gi go].
  cbn in *. rewrite El in *.
  apply pinv_mk; cbn; rewrite ?El; auto; try lia.
  - rewrite length_app, L3; simpl; lia.
  - apply live_app; auto. lia.
Qed.

Lemma pinv_send_b p c q l :
  phase_inv T K fo ro p c q -> is_first_stage T p = false ->
  send_b_id c < b_id c -> set_nth (ig q) (send_b_id c) None = Some l ->
  phase_inv T K fo ro p (incr_send_b c) (with_ig l q).
Proof.
  intros H Ef Hs Es. pinv_intro H. destruct c as [f b sf sb rf rb]; destruct q as [i o gi go].
  cbn in *. rewrite Ef in *.
  apply pinv_mk; cbn; rewrite ?Ef; auto; try lia.
  - rewrite (set_nth_length _ _ _ _ Es); auto.
  - eapply live_set; eauto.
Qed.

Lemma pinv_fwd p c q q' l :
  phase_inv T K fo ro p c q ->
  (if is_first_stage T p then f_id c < K else f_id c < recv_f_id c) ->
  (fo = true -> set_nth (inp q) (f_id c) None = Some l) ->
  inp q' = (if fo then l else inp q) ->
  out q' = (if negb (is_last_stage T p) || ro then out q ++ [Some (f_id c)] else out q) ->
  ig q' = ig q -> og q' = og q ->
  phase_inv T K fo ro p (incr_f c) q'.
Proof.
  intros H Hf Es E1 E2 E3 E4. pinv_intro H.
  destruct c as [f b sf sb rf rb]; destruct q' as [i' o' gi' go']; cbn in *.
  subst i' o' gi' go'.
  apply pinv_mk; cbn; auto; try lia.
  - destruct fo; [rewrite (set_nth_length _ _ _ _ (Es eq_refl))|]; auto.
  - destruct fo; [eapply live_set; eauto|auto].
  - destruct (is_last_stage T p), ro; cbn in *; rewrite ?length_app, ?L2; cbn; lia.
  - destruct (is_last_stage T p), ro; cbn in *; auto; apply live_app; auto; lia.
  - destruct (is_first_stage T p); lia.
  - destruct (is_first_stage T p); [tauto|lia].
Qed.

Lemma pinv_bwd p c q q' l1 l2 l3 :
  phase_inv T K fo ro p c q -> fo = false ->
  b_id c < f_id c -> (is_last_stage T p = false -> b_id c < recv_b_id c) ->
  set_nth (inp q) (b_id c) None = Some l1 ->
  (is_last_stage T p = false -> ro = false -> set_nth (out q) (b_id c) None = Some l2) ->
  (is_last_stage T p = false -> set_nth (og q) (b_id c) None = Some l3) ->
  inp q' = l1 ->
  out q' = (if is_last_stage T p || ro then out q else l2) ->
  og q' = (if is_last_stage T p then og q else l3) ->
  ig q' = ig q ++ [Some (b_id c)] ->
  phase_inv T K fo ro p (incr_b c) q'.
Proof.
  intros H Hfo Hb Hr Es1 Es2 Es3 E1 E2 E3 E4. pinv_intro H. rewrite Hfo in V1.
  destruct c as [f b sf sb rf rb]; destruct q' as [i' o' gi' go']; cbn in *.
  subst i' o' gi' go'.
  apply pinv_mk; cbn; rewrite ?Hfo; auto; try lia.
  - rewrite (set_nth_length _ _ _ _ Es1); auto.
  - exact (live_set _ _ _ V1 Es1).
  - destruct (is_last_stage T p) eqn:El, ro; cbn in *; auto.
    rewrite (set_nth_length _ _ _ _ (Es2 eq_refl eq_refl)); auto.
  - destruct (is_last_stage T p) eqn:El, ro; cbn in *; auto.
    + apply length_zero_iff_nil in L2; rewrite L2; apply live_nil.
    + exact (live_set _ _ _ V2 (Es2 eq_refl eq_refl)).
  - destruct (is_last_stage T p) eqn:El; cbn in *; auto.
    rewrite (set_nth_length _ _ _ _ (Es3 eq_refl)); auto.
  - destruct (is_last_stage T p) eqn:El; cbn in *.
    + destruct O4 as [O4 _]. rewrite O4 in L3. apply length_zero_iff_nil in L3; rewrite L3; apply live_nil.
    + exact (live_set _ _ _ V3 (Es3 eq_refl)).
  - rewrite length_app, L4; cbn; lia.
  - apply live_app; auto; lia.
  - destruct (is_last_stage T p); [tauto|]. specialize (Hr eq_refl); lia.
Qed.



Lemma loss_len_incr_f crit p c :
  loss_len T crit (upd p incr_f c) =
  loss_len T crit c + (if crit && is_last_stage T p then 1 else 0).
Proof.
  unfold loss_len; destruct p, c as [[] []], crit, (is_last_stage T false), (is_last_stage T true);
    cbn; lia.
Qed.

Lemma loss_len_ge crit p c :
  crit = true -> is_last_stage T p = true -> f_id (sel p c) <= loss_len T crit c.
Proof.
  intros -> E. unfold loss_len; destruct p, c; cbn in *; rewrite E; cbn; lia.
Qed.

Lemma last_stage_end p : is_last_stage T p = true -> is_first_rank T || is_last_rank T = true.
Proof. unfold is_last_stage; destruct (is_first_rank T), (is_last_rank T), p; auto. Qed.

Lemma runs_bind {A B} (m : M A) (k : A -> M B) c w a c1 w1 b c2 w2 :
  runs T K fo ro m c w a c1 w1 -> runs T K fo ro (k a) c1 w1 b c2 w2 ->
  runs T K fo ro (bind m k) c w b c2 w2.
Proof.
  intros H1 H2 s Hs. destruct (H1 s Hs) as (s1 & E1 & R1 & n1 & T1 & F1).
  destruct (H2 s1 R1) as (s2 & E2 & R2 & n2 & T2 & F2).
  exists s2. unfold bind; rewrite E1. split; [exact E2|]. split; [exact R2|].
  exists (n1 ++ n2). rewrite T2, T1, app_assoc. split; [reflexivity|]. apply Forall_app; auto.
Qed.

Lemma runs_ret {A} (a : A) c w : runs T K fo ro (ret a) c w a c w.
Proof.
  intros s Hs. exists s. split; [reflexivity|]. split; [exact Hs|].
  exists []; rewrite app_nil_r; auto.
Qed.

Lemma runs_emit e c w : snap_ok T e -> runs T K fo ro (emit e) c w tt c w.
Proof.
  intros He s Hs. eexists. split; [reflexivity|]. split.
  - eapply rel_frame; [exact Hs|reflexivity..].
  - exists [e]; split; [reflexivity|]. constructor; auto.
Qed.

Lemma runs_conseq {A} (m : M A) c w a c' w' c'' w'' :
  runs T K fo ro m c w a c' w' -> c' = c'' -> w' = w'' -> runs T K fo ro m c w a c'' w''.
Proof. intros H -> ->; exact H. Qed.

Lemma runs_for_range (C : nat -> two cursors) (W : nat -> nat) n body :
  (forall i, i < n -> runs T K fo ro (body i) (C i) (W i) tt (C (S i)) (W (S i))) ->
  runs T K fo ro (for_range n body) (C 0) (W 0) tt (C n) (W n).
Proof.
  intros H; induction n as [|n IH]; cbn [for_range].
  - apply runs_ret.
  - eapply runs_bind; [apply IH; intros; apply H; lia|]. apply H; lia.
Qed.

Lemma runs_for_range_acc {A} (C : nat -> two cursors) (W : nat -> nat) (acc : nat -> A) n body :
  (forall i, i < n -> runs T K fo ro (body i (acc i)) (C i) (W i) (acc (S i)) (C (S i)) (W (S i))) ->
  runs T K fo ro (for_range_acc n body (acc 0)) (C 0) (W 0) (acc n) (C n) (W n).
Proof.
  intros H; induction n as [|n IH]; cbn [for_range_acc].
  - apply runs_ret.
  - eapply runs_bind; [apply IH; intros; apply H; lia|]. apply H; lia.
Qed.

End Prims.


Ltac trace_tac R :=
  eexists; split; [cbn; rewrite <- ?app_assoc; reflexivity|]; cbn [app];
  repeat (apply Forall_cons; [first [exact I | eapply rel_snap; exact R] |]);
  apply Forall_nil.

Ltac open_state s Hs :=
  let Hs' := fresh "Hs" in
  pose proof Hs as Hs';
  destruct Hs as (Hfo & Hro & Hc & Hw & Hca & Hph & Hloss & Hlab & Hcrit);
  destruct s as [fo0 ro0 nh0 h0 ch cu lab loss crit comm wg tr];
  cbn [forward_only return_outputs cur wgs chunks loss_chunks criterion labels] in *;
  subst fo0 ro0 cu.

Ltac phases_tac p :=
  let q := fresh "q" in let Hq := fresh "Hq" in
  intros q;
  cbn [chunks cur set_chunks set_trace set_comm set_cur set_wgs set_loss set_labels
       set_criterion set_halves set_mode];
  destruct (Bool.bool_dec q p) as [->|Hq];
  [rewrite ?upd_upd, ?sel_upd_same
  |rewrite ?upd_upd, ?sel_upd_other by exact Hq; auto].

Ltac finish_rel :=
  match goal with |- rel ?T ?K ?fo ?ro ?c' ?w' ?S /\ _ =>
    let R := fresh "R" in
    assert (R : rel T K fo ro c' w' S); [|split; [exact R|]; trace_tac R] end.

Ltac unfold_prims :=
  unfold update_cursors, append_irecv, append_isend, update_queues, labels_of,
    run_backward, wgs_set_enabled, wgs_flush, wgs_pop, commit_and_wait_comm,
    emit, bind, get, modify, ret, when, lookup, unpack, assign, raise.

Ltac stay Hs0 :=
  eexists; split; [reflexivity|]; split;
  [eapply rel_frame; [exact Hs0|reflexivity..]|exists []; rewrite app_nil_r; auto].

Ltac side Hca :=
  cbn; rewrite ?Hca, ?length_app; cbn; first [reflexivity|assumption|lia].

Ltac reduce_lookups :=
  repeat match goal with
  | H : nth_error ?l ?i = _ |- context [nth_error ?l ?i] => rewrite H; cbn
  | H : set_nth ?l ?i ?v = _ |- context [set_nth ?l ?i ?v] => rewrite H; cbn
  end.

Lemma nth_error_lt {A} (l : list A) i : i < length l -> exists y, nth_error l i = Some y.
Proof. intros H. destruct (nth_error l i) eqn:E; eauto. apply nth_error_None in E; lia. Qed.

Section Prims.
Variables (T : dualpipe) (K : nat) (fo ro : bool).

Lemma recv_forward_runs ph c w :
  runs T K fo ro (recv_forward T ph) c w tt
    (if is_first_stage T (xorb ph (second_half T)) then c
     else upd (xorb ph (second_half T)) incr_recv_f c) w.
Proof.
  intros s Hs. unfold recv_forward. set (p := xorb ph (second_half T)).
  destruct (is_first_stage T p) eqn:Ef.
  - exists s; split; [reflexivity|]. split; [exact Hs|]. exists []; rewrite app_nil_r; auto.
  - open_state s Hs.
    unfold_prims. cbn. eexists; split; [reflexivity|].
    finish_rel.
    eapply rel_intro; [exact Hs0|first [reflexivity | cbn; assumption]..| |].
    + phases_tac p. apply pinv_recv_f; auto.
    + cbn. rewrite loss_len_same; [exact Hloss|]. destruct (sel p _); reflexivity.
Qed.

Lemma send_forward_runs ph c w :
  (is_last_stage T (xorb ph (second_half T)) = false ->
   send_f_id (sel (xorb ph (second_half T)) c) < f_id (sel (xorb ph (second_half T)) c) /\
   b_id (sel (xorb ph (second_half T)) c) <= send_f_id (sel (xorb ph (second_half T)) c)) ->
  runs T K fo ro (send_forward T ph) c w tt
    (if is_last_stage T (xorb ph (second_half T)) then c
     else upd (xorb ph (second_half T)) incr_send_f c) w.
Proof.
  intros Hpre s Hs. unfold send_forward. set (p := xorb ph (second_half T)) in *.
  destruct (is_last_stage T p) eqn:El.
  - exists s; split; [reflexivity|]. split; [exact Hs|]. exists []; rewrite app_nil_r; auto.
  - destruct (Hpre eq_refl) as [H1 H2]. open_state s Hs.
    pose proof (Hph p) as Hp. destruct Hp as (L1 & V1 & L2 & V2 & _).
    rewrite El in L2. cbn in L2.
    destruct (live_some _ _ (send_f_id (sel p c)) V2) as [x Ex]; [destruct ro; lia|lia|].
    unfold_prims. cbn. rewrite Ex. cbn.
    destruct ro; cbn; eexists; (split; [reflexivity|]).
    all: finish_rel.
    all: eapply rel_intro; [exact Hs0|first [reflexivity | cbn; assumption]..| |].
    all: try (phases_tac p; apply pinv_send_f; auto).
    all: cbn; rewrite loss_len_same; [exact Hloss|]; destruct (sel p _); reflexivity.
Qed.

End Prims.

Section Prims2.
Variables (T : dualpipe) (K : nat) (fo ro : bool).

Lemma recv_backward_runs ph c w :
  runs T K fo ro (recv_backward T ph) c w tt
    (if fo || is_last_stage T (xorb ph (second_half T)) then c
     else upd (xorb ph (second_half T)) incr_recv_b c) w.
Proof.
  intros s Hs. open_state s Hs. unfold recv_backward. set (p := xorb ph (second_half T)).
  unfold_prims. cbn. destruct fo eqn:Efo; cbn; [stay Hs0|].
  destruct (is_last_stage T p) eqn:El; cbn; [stay Hs0|].
  eexists; split; [reflexivity|]. finish_rel.
  eapply rel_intro; [exact Hs0|side Hca..| |].
  - phases_tac p. apply pinv_recv_b; auto.
  - cbn. rewrite loss_len_same; [exact Hloss|]. destruct (sel p _); reflexivity.
Qed.

Lemma send_backward_runs ph c w :
  (fo = false -> is_first_stage T (xorb ph (second_half T)) = false ->
   send_b_id (sel (xorb ph (second_half T)) c) < b_id (sel (xorb ph (second_half T)) c)) ->
  runs T K fo ro (send_backward T ph) c w tt
    (if fo || is_first_stage T (xorb ph (second_half T)) then c
     else upd (xorb ph (second_half T)) incr_send_b c) w.
Proof.
  intros Hpre s Hs. open_state s Hs. unfold send_backward. set (p := xorb ph (second_half T)) in *.
  unfold_prims. cbn. destruct fo eqn:Efo; cbn; [stay Hs0|].
  destruct (is_first_stage T p) eqn:Ef; cbn; [stay Hs0|].
  specialize (Hpre eq_refl eq_refl).
  pose proof (Hph p) as (L1 & V1 & L2 & V2 & L3 & V3 & L4 & V4 & _).
  destruct (nth_error_lt (ig (sel p ch)) (send_b_id (sel p c))) as [y Ey]; [lia|].
  destruct (set_nth_some (ig (sel p ch)) (send_b_id (sel p c)) None) as [l Es]; [lia|].
  reduce_lookups.
  eexists; split; [reflexivity|]. finish_rel.
  eapply rel_intro; [exact Hs0|side Hca..| |].
  - phases_tac p. apply pinv_send_b; auto.
  - cbn. rewrite loss_len_same; [exact Hloss|]. destruct (sel p _); reflexivity.
Qed.

Lemma commit_runs c w : runs T K fo ro commit_and_wait_comm c w tt c w.
Proof.
  intros s Hs. open_state s Hs. unfold_prims. cbn.
  destruct comm; cbn; stay Hs0.
Qed.

Lemma weight_chunk_runs c w :
  (fo = false -> 0 < w) ->
  runs T K fo ro weight_chunk c w tt c (if fo then w else w - 1).
Proof.
  intros Hpre s Hs. open_state s Hs. unfold weight_chunk. unfold_prims. cbn.
  destruct fo eqn:Efo; cbn; [stay Hs0|].
  specialize (Hpre eq_refl).
  destruct (funcs_queue wg) as [|u rest] eqn:Eq; [cbn in Hw; lia|].
  destruct comm; cbn; rewrite Eq; cbn;
    (eexists; split; [reflexivity|]).
  all: finish_rel.
  all: eapply rel_intro; [exact Hs0|try side Hca..| |]; cbn; auto.
  all: cbn in Hw; lia.
Qed.

End Prims2.

Section Prims3.
Variables (T : dualpipe) (K : nat) (fo ro : bool).

Lemma forward_compute_runs ph p c w :
  xorb ph (second_half T) = p ->
  (if is_first_stage T p then f_id (sel p c) < K else f_id (sel p c) < recv_f_id (sel p c)) ->
  (is_last_stage T p = true -> f_id (sel p c) < K) ->
  runs T K fo ro (forward_compute_chunk T ph) c w tt (upd p incr_f c) w.
Proof.
  intros Hp Hf Hl s Hs. open_state s Hs. unfold forward_compute_chunk. rewrite Hp.
  pose proof (Hph p) as (L1 & V1 & L2 & V2 & L3 & V3 & L4 & V4 & B & F & _).
  destruct (live_some _ _ (f_id (sel p c)) V1) as [x Ex];
    [destruct fo; lia|destruct (is_first_stage T p); lia|].
  destruct (set_nth_some (inp (sel p ch)) (f_id (sel p c)) None) as [l Es];
    [destruct (is_first_stage T p); lia|].
  assert (Hlb : is_last_stage T p && crit = true -> exists lab0 y, lab = Some lab0 /\
            nth_error (sel p lab0) (f_id (sel p c)) = Some y).
  { intros E. apply andb_true_iff in E as [E1 E2].
    destruct (Hlab p E1 E2) as (lab0 & -> & Hlen).
    destruct (nth_error_lt (sel p lab0) (f_id (sel p c))) as [y Ey]; [specialize (Hl E1); lia|].
    eauto. }
  unfold_prims. cbn. rewrite Ex. cbn.
  destruct fo eqn:Efo; destruct (is_last_stage T p) eqn:El; destruct crit eqn:Ec;
    destruct ro eqn:Ero; cbn; rewrite ?Es; cbn;
    try (destruct (Hlb eq_refl) as (lab0 & y & -> & Ey); cbn; rewrite Ey; cbn).
  all: eexists; split; [reflexivity|].
  all: finish_rel.
  all: eapply rel_intro; [exact Hs0|try side Hca..| |].
  all: try (phases_tac p; eapply pinv_fwd;
            [apply Hph|exact Hf|intros; exact Es|cbn; rewrite ?El; reflexivity..]).
  all: cbn [loss_chunks criterion set_chunks set_trace set_comm set_cur set_wgs set_loss
            set_labels set_criterion];
       rewrite ?loss_len_incr_f, ?length_app, Hloss, ?El; cbn; lia.
Qed.

Lemma backward_compute_runs ph p zb c w :
  xorb ph (second_half T) = p ->
  (fo = false -> b_id (sel p c) < f_id (sel p c) /\
     (is_last_stage T p = false -> b_id (sel p c) < recv_b_id (sel p c))) ->
  runs T K fo ro (backward_compute_chunk T ph zb) c w tt
    (if fo then c else upd p incr_b c) (if fo then w else w + (if zb then 1 else 0)).
Proof.
  intros Hp Hpre s Hs. open_state s Hs. unfold backward_compute_chunk. rewrite Hp.
  unfold_prims. cbn. destruct fo eqn:Efo; cbn; [stay Hs0|].
  destruct (Hpre eq_refl) as [Hb Hr].
  pose proof (Hph p) as (L1 & V1 & L2 & V2 & L3 & V3 & L4 & V4 & B & F & O1 & O2 & O3 & O4).
  destruct (live_some _ _ (b_id (sel p c)) V1) as [x1 Ex1];
    [lia|destruct (is_first_stage T p); [specialize (F eq_refl)|]; lia|].
  destruct (set_nth_some (inp (sel p ch)) (b_id (sel p c)) None) as [l1 Es1];
    [destruct (is_first_stage T p); [specialize (F eq_refl)|]; lia|].
  assert (X2 : exists l2, is_last_stage T p = false -> ro = false ->
            set_nth (out (sel p ch)) (b_id (sel p c)) None = Some l2).
  { destruct (is_last_stage T p) eqn:El0; [exists []; discriminate|].
    destruct ro; [exists []; discriminate|]. cbn in L2.
    destruct (set_nth_some (out (sel p ch)) (b_id (sel p c)) None) as [l E]; [lia|].
    exists l; auto. }
  assert (X3 : exists l3, is_last_stage T p = false ->
            set_nth (og (sel p ch)) (b_id (sel p c)) None = Some l3).
  { destruct (is_last_stage T p) eqn:El0; [exists []; discriminate|].
    destruct (set_nth_some (og (sel p ch)) (b_id (sel p c)) None) as [l E];
      [specialize (Hr eq_refl); lia|].
    exists l; auto. }
  destruct X2 as [l2 Es2], X3 as [l3 Es3].
  destruct (is_last_stage T p) eqn:El.
  - assert (Ecr : crit = true) by (apply Hcrit; [reflexivity|exact (last_stage_end T p El)]).
    destruct (nth_error_lt loss (b_id (sel p c))) as [y Ey].
    { rewrite Hloss. pose proof (loss_len_ge T crit p c Ecr El). lia. }
    cbn. rewrite Ey. cbn.
    destruct zb; cbn; reduce_lookups; rewrite ?Ex1, ?Es1; cbn.
    all: eexists; split; [reflexivity|].
    all: finish_rel.
    all: eapply rel_intro; [exact Hs0|try side Hca..| |].
    all: try (phases_tac p; eapply (pinv_bwd T K false ro) with (l1:=l1) (l2:=l2) (l3:=l3);
      [apply Hph|reflexivity|exact Hb|rewrite ?El; exact Hr|exact Es1|rewrite ?El; exact Es2
      |rewrite ?El; exact Es3|cbn; rewrite ?El; reflexivity..]).
    all: cbn [loss_chunks criterion set_chunks set_trace set_comm set_cur set_wgs set_loss
            set_labels set_criterion];
       rewrite loss_len_same; [exact Hloss|destruct (sel p c); reflexivity].
  - specialize (Hr eq_refl). specialize (Es3 eq_refl). specialize (Es2 eq_refl). cbn in L2.
    destruct (live_some _ _ (b_id (sel p c)) V2) as [x2 Ex2]; [destruct ro; lia|lia|].
    destruct (live_some _ _ (b_id (sel p c)) V3) as [x3 Ex3]; [lia|lia|].
    cbn. rewrite Ex2. cbn.
    destruct ro eqn:Ero; cbn; [|rewrite (Es2 eq_refl); cbn]; rewrite ?sel_upd_same; cbn; rewrite Ex3, Es3; cbn;
      destruct zb; cbn; rewrite ?upd_upd, ?sel_upd_same; cbn; rewrite ?Ex1, ?Es1; cbn.
    all: eexists; split; [reflexivity|].
    all: finish_rel.
    all: eapply rel_intro; [exact Hs0|try side Hca..| |].
    all: try (phases_tac p; eapply (pinv_bwd T K false _) with (l1:=l1) (l2:=l2) (l3:=l3);
      [apply Hph|reflexivity|exact Hb|rewrite ?El; auto|exact Es1|rewrite ?El; auto
      |rewrite ?El; auto|cbn; rewrite ?El; reflexivity..]).
    all: cbn [loss_chunks criterion set_chunks set_trace set_comm set_cur set_wgs set_loss
            set_labels set_criterion];
       rewrite loss_len_same; [exact Hloss|destruct (sel p c); reflexivity].
Qed.

End Prims3.

Lemma sel_upd_neg {A} p (g : A -> A) x : sel p (upd (negb p) g x) = sel p x.
Proof. destruct p, x; reflexivity. Qed.

Lemma sel_upd_neg' {A} p (g : A -> A) x : sel (negb p) (upd p g x) = sel (negb p) x.
Proof. destruct p, x; reflexivity. Qed.

Ltac sel_simpl :=
  repeat (rewrite sel_upd_same || rewrite sel_upd_neg || rewrite sel_upd_neg').

Lemma pinv_order T K fo ro p c q : phase_inv T K fo ro p c q -> cursor_order T p c.
Proof. unfold phase_inv; tauto. Qed.

Lemma snap_of T (c : two cursors) :
  (forall q, cursor_order T q (sel q c)) -> snap_ok T (ECursors c).
Proof. intros H; split; [apply (H false)|apply (H true)]. Qed.

Lemma snap_mid T K fo ro p0 c w s (ch : two queues) :
  (forall q, phase_inv T K fo ro q (sel q c) (sel q ch)) ->
  rel T K fo ro (upd (negb p0) incr_b (upd p0 incr_f c)) w s ->
  snap_ok T (ECursors (upd p0 incr_f c)).
Proof.
  intros Hph R. apply snap_of. intros q.
  destruct (Bool.bool_dec q p0) as [->|Hq].
  - destruct R as (_ & _ & _ & _ & _ & Hp & _). specialize (Hp p0).
    rewrite sel_upd_neg in Hp. exact (pinv_order _ _ _ _ _ _ _ Hp).
  - replace q with (negb p0) by (destruct q, p0; cbn; congruence).
    rewrite sel_upd_neg'. exact (pinv_order _ _ _ _ _ _ _ (Hph (negb p0))).
Qed.

Section Prims4.
Variables (T : dualpipe) (K : nat) (fo ro : bool).

Lemma fb_compute_runs ph0 ph1 p0 c w :
  xorb ph0 (second_half T) = p0 -> xorb ph1 (second_half T) = negb p0 ->
  (if is_first_stage T p0 then f_id (sel p0 c) < K else f_id (sel p0 c) < recv_f_id (sel p0 c)) ->
  (is_last_stage T p0 = true -> f_id (sel p0 c) < K) ->
  (fo = false -> b_id (sel (negb p0) c) < f_id (sel (negb p0) c) /\
     (is_last_stage T (negb p0) = false -> b_id (sel (negb p0) c) < recv_b_id (sel (negb p0) c))) ->
  runs T K fo ro (forward_backward_compute_chunk T ph0 ph1) c w tt
    (if fo then upd p0 incr_f c else upd (negb p0) incr_b (upd p0 incr_f c)) w.
Proof.
  intros H0 H1 Hf Hl Hb s Hs.
  pose proof Hs as (Hfo & _).
  unfold forward_backward_compute_chunk. unfold bind at 1. unfold get at 1. cbv beta iota.
  rewrite Hfo. clear Hfo.
  destruct fo eqn:Efo.
  { exact (forward_compute_runs T K true ro ph0 p0 c w H0 Hf Hl s Hs). }
  destruct (Hb eq_refl) as [Hb1 Hr1]. clear Hb.
  destruct (overlaped_forward_backward T) eqn:Eov; cbn [negb].
  2: { revert s Hs.
       change (runs T K false ro (forward_compute_chunk T ph0 ;; backward_compute_chunk T ph1 false)
                 c w tt (upd (negb p0) incr_b (upd p0 incr_f c)) w).
       eapply runs_bind; [exact (forward_compute_runs T K false ro ph0 p0 c w H0 Hf Hl)|].
       eapply runs_conseq;
         [apply (backward_compute_runs T K false ro ph1 (negb p0) false); [exact H1|]
         |reflexivity|cbn; lia].
       intros _. rewrite sel_upd_neg'. auto. }
  open_state s Hs. rewrite H0, H1.
  pose proof (Hph p0) as (A1 & AV1 & A2 & AV2 & A3 & AV3 & A4 & AV4 & AB & AF & _).
  pose proof (Hph (negb p0)) as (L1 & V1 & L2 & V2 & L3 & V3 & L4 & V4 & B & F & O1 & O2 & O3 & O4).
  destruct (nth_error_lt (inp (sel p0 ch)) (f_id (sel p0 c))) as [y0 Ey0];
    [destruct (is_first_stage T p0); lia|].
  assert (Hlb : is_last_stage T p0 && crit = true -> exists lab0 y, lab = Some lab0 /\
            nth_error (sel p0 lab0) (f_id (sel p0 c)) = Some y).
  { intros E. apply andb_true_iff in E as [E1 E2].
    destruct (Hlab p0 E1 E2) as (lab0 & -> & Hlen).
    destruct (nth_error_lt (sel p0 lab0) (f_id (sel p0 c))) as [y Ey]; [specialize (Hl E1); lia|].
    eauto. }
  destruct (live_some _ _ (b_id (sel (negb p0) c)) V1) as [x1 Ex1];
    [lia|destruct (is_first_stage T (negb p0)); [specialize (F eq_refl)|]; lia|].
  destruct (set_nth_some (inp (sel (negb p0) ch)) (b_id (sel (negb p0) c)) None) as [l1 Es1];
    [destruct (is_first_stage T (negb p0)); [specialize (F eq_refl)|]; lia|].
  assert (X2 : exists l2, is_last_stage T (negb p0) = false -> ro = false ->
            set_nth (out (sel (negb p0) ch)) (b_id (sel (negb p0) c)) None = Some l2).
  { destruct (is_last_stage T (negb p0)) eqn:El0; [exists []; discriminate|].
    destruct ro; [exists []; discriminate|]. cbn in L2.
    destruct (set_nth_some (out (sel (negb p0) ch)) (b_id (sel (negb p0) c)) None) as [l E]; [lia|].
    exists l; auto. }
  assert (X3 : exists l3, is_last_stage T (negb p0) = false ->
            set_nth (og (sel (negb p0) ch)) (b_id (sel (negb p0) c)) None = Some l3).
  { destruct (is_last_stage T (negb p0)) eqn:El0; [exists []; discriminate|].
    destruct (set_nth_some (og (sel (negb p0) ch)) (b_id (sel (negb p0) c)) None) as [l E];
      [specialize (Hr1 eq_refl); lia|].
    exists l; auto. }
  destruct X2 as [l2 Es2], X3 as [l3 Es3].
  assert (Hly : is_last_stage T (negb p0) = true -> exists y, nth_error loss (b_id (sel (negb p0) c)) = Some y).
  { intros El1.
    assert (Ecr : crit = true) by (apply Hcrit; [reflexivity|exact (last_stage_end T (negb p0) El1)]).
    apply nth_error_lt. rewrite Hloss. pose proof (loss_len_ge T crit (negb p0) c Ecr El1). lia. }
  assert (Hout : is_last_stage T (negb p0) = false -> exists x2 x3,
            nth_error (out (sel (negb p0) ch)) (b_id (sel (negb p0) c)) = Some (Some x2) /\
            nth_error (og (sel (negb p0) ch)) (b_id (sel (negb p0) c)) = Some (Some x3)).
  { intros El1. specialize (Hr1 El1). rewrite El1 in L2. cbn in L2.
    destruct (live_some _ _ (b_id (sel (negb p0) c)) V2) as [x2 Ex2]; [destruct ro; lia|lia|].
    destruct (live_some _ _ (b_id (sel (negb p0) c)) V3) as [x3 Ex3]; [lia|lia|].
    eauto. }
  unfold_prims. cbn. sel_simpl. rewrite Ey0. cbn.
  destruct (is_last_stage T p0) eqn:El0; destruct crit eqn:Ec;
    destruct (is_last_stage T (negb p0)) eqn:El1; destruct ro eqn:Ero.
  all: try (destruct (Hlb eq_refl) as (lab0 & y & -> & Ey)).
  all: try (destruct (Hly eq_refl) as [yl Eyl]).
  all: try (destruct (Hout eq_refl) as (x2 & x3 & Ex2 & Ex3)).
  all: try specialize (Es2 eq_refl eq_refl); try specialize (Es3 eq_refl).
  all: do 6 (cbn; sel_simpl; reduce_lookups).
  all: eexists; split; [reflexivity|].
  all: match goal with |- rel ?T ?K ?fo ?ro ?c' ?w' ?S /\ _ =>
    let R := fresh "R" in
    assert (R : rel T K fo ro c' w' S);
    [|split; [exact R|];
      eexists; split; [cbn; rewrite <- ?app_assoc; reflexivity|]; cbn [app];
      apply Forall_cons; [eapply snap_mid; [exact Hph|exact R]|];
      apply Forall_cons; [eapply rel_snap; exact R|];
      apply Forall_cons; [exact I|]; apply Forall_nil] end.
  all: eapply rel_intro; [exact Hs0|try side Hca..| |].
  all: try (intros q; cbn [chunks cur set_chunks set_trace set_comm set_cur set_wgs set_loss
                           set_labels set_criterion];
    destruct (Bool.bool_dec q p0) as [->|Hq];
    [sel_simpl; cbn beta;
     eapply (pinv_fwd T K false _) with (l := []);
       [apply Hph|exact Hf|discriminate|reflexivity|cbn; rewrite ?El0; reflexivity
       |reflexivity|reflexivity]
    |replace q with (negb p0) by (destruct q, p0; cbn; congruence); sel_simpl; cbn beta;
     eapply (pinv_bwd T K false _) with (l1:=l1) (l2:=l2) (l3:=l3);
      [apply Hph|reflexivity|exact Hb1|rewrite ?El1; auto|exact Es1|rewrite ?El1; auto
      |rewrite ?El1; auto|cbn; rewrite ?El1; reflexivity..]]).
  all: cbn [loss_chunks criterion set_chunks set_trace set_comm set_cur set_wgs set_loss
            set_labels set_criterion];
       rewrite loss_len_same by (destruct (sel _ _); reflexivity);
       rewrite loss_len_incr_f, ?length_app, Hloss, El0; cbn; lia.
Qed.
End Prims4.

Ltac shape_cases T Hsh :=
  destruct T as [n0 r0 fr0 pr0 nr0 lr0 fr lr sh md ov];
  unfold shape_ok, ends, second_half in Hsh; cbn in Hsh;
  destruct fr, lr, sh, md; cbn in Hsh;
  try (exfalso; intuition congruence).

Ltac bool_facts :=
  repeat match goal with
  | H : (_ =? _) = true |- _ => apply Nat.eqb_eq in H
  | H : (_ =? _) = false |- _ => apply Nat.eqb_neq in H
  | H : (_ <? _) = true |- _ => apply Nat.ltb_lt in H
  | H : (_ <? _) = false |- _ => apply Nat.ltb_ge in H
  | H : (_ <=? _) = true |- _ => apply Nat.leb_le in H
  | H : (_ <=? _) = false |- _ => apply Nat.leb_gt in H
  | H : (_ =? _)%Z = true |- _ => apply Z.eqb_eq in H
  | H : (_ =? _)%Z = false |- _ => apply Z.eqb_neq in H
  | H : (_ <? _)%Z = true |- _ => apply Z.ltb_lt in H
  | H : (_ <? _)%Z = false |- _ => apply Z.ltb_ge in H
  end.

Ltac pre_solve :=
  cbn;
  repeat match goal with |- context [?a =? ?b] => destruct (Nat.eqb_spec a b); cbn end;
  intros; repeat split; intros; first [discriminate | lia].

Ltac prim :=
  cbv beta zeta;
  cbn [negb orb andb is_first_rank is_last_rank is_in_second_half is_middle_rank
       overlaped_forward_backward];
  lazymatch goal with
  | |- runs _ _ _ _ (bind _ _) _ _ _ _ _ => eapply runs_bind; [prim|prim]
  | |- runs _ _ _ _ (emit _) _ _ _ _ _ => apply runs_emit; exact I
  | |- runs _ _ _ _ (ret _) _ _ _ _ _ => apply runs_ret
  | |- runs _ _ _ _ (when true _) _ _ _ _ _ => cbn [when]; prim
  | |- runs _ _ _ _ (when false _) _ _ _ _ _ => cbn [when]; apply runs_ret
  | |- runs _ _ _ _ (if true then _ else _) _ _ _ _ _ => cbv iota; prim
  | |- runs _ _ _ _ (if false then _ else _) _ _ _ _ _ => cbv iota; prim
  | |- runs _ _ _ _ (forward_chunk _ _ _ _) _ _ _ _ _ => unfold forward_chunk; prim
  | |- runs _ _ _ _ (backward_chunk _ _ _ _ _) _ _ _ _ _ => unfold backward_chunk; prim
  | |- runs _ _ _ _ (forward_backward_chunk _ _ _ _) _ _ _ _ _ =>
      unfold forward_backward_chunk; prim
  | |- runs _ _ _ _ (recv_forward _ _) _ _ _ _ _ => apply recv_forward_runs
  | |- runs _ _ _ _ (send_forward _ _) _ _ _ _ _ => apply send_forward_runs; pre_solve
  | |- runs _ _ _ _ (recv_backward _ _) _ _ _ _ _ => apply recv_backward_runs
  | |- runs _ _ _ _ (send_backward _ _) _ _ _ _ _ => apply send_backward_runs; pre_solve
  | |- runs _ _ _ _ commit_and_wait_comm _ _ _ _ _ => apply commit_runs
  | |- runs _ _ _ _ weight_chunk _ _ _ _ _ => apply weight_chunk_runs; pre_solve
  | |- runs _ _ _ _ (forward_compute_chunk ?T ?ph) _ _ _ _ _ =>
      eapply (forward_compute_runs _ _ _ _ ph (xorb ph (second_half T)));
      [reflexivity|pre_solve|pre_solve]
  | |- runs _ _ _ _ (backward_compute_chunk ?T ?ph _) _ _ _ _ _ =>
      eapply (backward_compute_runs _ _ _ _ ph (xorb ph (second_half T)));
      [reflexivity|pre_solve]
  | |- runs _ _ _ _ (forward_backward_compute_chunk ?T ?ph0 _) _ _ _ _ _ =>
      eapply (fb_compute_runs _ _ _ _ ph0 _ (xorb ph0 (second_half T)));
      [reflexivity|cbn; reflexivity|pre_solve..]
  end.

Ltac cur_eq :=
  unfold st1, st2, st3, st4, st5, st6, st7, lmk, cur0, cur1, nz, bw, incr_f, incr_b, incr_send_f, incr_send_b,
    incr_recv_f, incr_recv_b; cbn;
  repeat match goal with |- context [?a =? ?b] => destruct (Nat.eqb_spec a b) end;
  repeat (match goal with
          | |- mkTwo _ _ = mkTwo _ _ => f_equal
          | |- mkCursors _ _ _ _ _ _ = mkCursors _ _ _ _ _ _ => f_equal
          end); lia.

Ltac shape_facts Hsh :=
  let Hhn := fresh "Hhn" in let Hz := fresh "Hz" in let Hm := fresh "Hm" in
  destruct Hsh as (Hhn & Hz & Hm & _ & _);
  try specialize (Hz eq_refl); try (destruct (Hm eq_refl) as [Hm' _]; clear Hm).

Lemma phase1_runs T K fo ro nh h :
  shape_ok T nh h -> 2 * nh <= K ->
  runs T K fo ro (phase1 T (2 * (nh - h - 1))) (st1 T fo 0) 0 tt
    (st1 T fo (2 * (nh - h - 1))) 0.
Proof.
  intros Hsh HK. unfold phase1.
  apply (runs_for_range T K fo ro (st1 T fo) (fun _ => 0)).
  intros i Hi.
  shape_cases T Hsh; shape_facts Hsh; destruct fo.
  all: eapply runs_conseq; [prim|cur_eq|reflexivity].
Qed.

Lemma phase2_runs T K fo ro nh h :
  shape_ok T nh h -> 2 * nh <= K ->
  runs T K fo ro (phase2 T (Z.of_nat h + 1)) (st1 T fo (2 * (nh - h - 1))) 0 tt
    (st2 T fo nh h (S h)) 0.
Proof.
  intros Hsh HK. unfold phase2.
  replace (Z.to_nat (Z.of_nat h + 1)) with (S h) by lia.
  eapply runs_bind with (c1 := st2 T fo nh h 0) (w1 := 0).
  { eapply runs_conseq; [apply recv_forward_runs| |reflexivity].
    shape_cases T Hsh; shape_facts Hsh; destruct fo; cur_eq. }
  apply (runs_for_range _ _ _ _ (st2 _ _ nh h) (fun _ => 0)); intros i Hi.
  destruct (Z.of_nat i <? Z.of_nat h + 1 - 1)%Z eqn:E; bool_facts.
  all: shape_cases T Hsh; shape_facts Hsh; destruct fo.
  all: eapply runs_conseq; [prim|cur_eq|reflexivity].
Qed.

Lemma phase3_runs T K fo ro nh h :
  shape_ok T nh h -> 2 * nh <= K ->
  runs T K fo ro (phase3 T (nh - h - 1)) (st3 T fo nh h 0) 0 tt
    (st3 T fo nh h (nh - h - 1)) 0.
Proof.
  intros Hsh HK. unfold phase3.
  apply (runs_for_range _ _ _ _ (st3 _ _ nh h) (fun _ => 0)); intros i Hi.
  shape_cases T Hsh; shape_facts Hsh; destruct fo.
  all: eapply runs_conseq; [prim|cur_eq|reflexivity].
Qed.

Lemma phase4_runs T K fo ro nh h :
  shape_ok T nh h -> 2 * nh <= K ->
  runs T K fo ro (phase4 T (K - 2 * nh + h + 1)) (st4 T fo nh h 0) 0 tt
    (st4 T fo nh h (K - 2 * nh + h + 1)) 0.
Proof.
  intros Hsh HK. unfold phase4.
  apply (runs_for_range _ _ _ _ (st4 _ _ nh h) (fun _ => 0)); intros i Hi.
  destruct (i =? 0) eqn:E; bool_facts.
  all: shape_cases T Hsh; shape_facts Hsh; destruct fo.
  all: eapply runs_conseq; [prim|cur_eq|reflexivity].
Qed.

Lemma phase5_runs T K fo ro nh h :
  shape_ok T nh h -> 2 * nh <= K ->
  runs T K fo ro (phase5 T (nh - h - 1)) (st5 T K fo nh h 0) 0 tt
    (st5 T K fo nh h (nh - h - 1)) 0.
Proof.
  intros Hsh HK. unfold phase5.
  apply (runs_for_range _ _ _ _ (st5 _ _ _ nh h) (fun _ => 0)); intros i Hi.
  shape_cases T Hsh; shape_facts Hsh; destruct fo.
  all: eapply runs_conseq; [prim|cur_eq|reflexivity].
Qed.

Lemma runs_conseq3 {A} T K fo ro (m : M A) c w a c' w' a'' c'' w'' :
  runs T K fo ro m c w a c' w' -> c' = c'' -> w' = w'' -> a = a'' ->
  runs T K fo ro m c w a'' c'' w''.
Proof. intros H -> -> ->; exact H. Qed.

Lemma z_div2 h : ((Z.of_nat h + 1) / 2)%Z = Z.of_nat (S h / 2).
Proof. rewrite Nat2Z.inj_div. f_equal. lia. Qed.

Lemma z_eqb_nat a b : (Z.of_nat a =? Z.of_nat b)%Z = (a =? b).
Proof. destruct (Nat.eqb_spec a b), (Z.eqb_spec (Z.of_nat a) (Z.of_nat b)); lia. Qed.

Lemma z_mod2_1 h : (Z.of_nat h mod 2 =? 1)%Z = Nat.odd h.
Proof.
  change 2%Z with (Z.of_nat 2). rewrite <- Nat2Z.inj_mod.
  change 1%Z with (Z.of_nat 1). rewrite z_eqb_nat.
  rewrite <- Nat.bit0_mod, Nat.bit0_odd. destruct (Nat.odd h); reflexivity.
Qed.

Lemma z_mod2_0 h : (Z.of_nat h mod 2 =? 0)%Z = Nat.even h.
Proof.
  change 2%Z with (Z.of_nat 2). rewrite <- Nat2Z.inj_mod.
  change 0%Z with (Z.of_nat 0). rewrite z_eqb_nat.
  rewrite <- Nat.negb_odd, <- Nat.bit0_odd, <- Nat.bit0_mod.
  destruct (Nat.testbit h 0); reflexivity.
Qed.

Ltac w6_tac :=
  unfold w6; cbv beta iota;
  repeat match goal with E : Nat.even _ = _ |- _ => rewrite E end;
  repeat match goal with |- context [?a <=? ?b] => destruct (Nat.leb_spec a b) end;
  cbv beta iota; lia.
Ltac acc_tac :=
  match goal with |- _ = (?a <? ?b) => destruct (Nat.ltb_spec a b); first [reflexivity | lia] end.

Lemma phase6_runs T K fo ro nh h :
  shape_ok T nh h -> 2 * nh <= K ->
  runs T K fo ro (phase6 T (Z.of_nat h + 1) (Z.of_nat h)) (st6 T K fo nh h 0) 0 tt
    (st6 T K fo nh h (S h)) (w6 fo h (S h)).
Proof.
  intros Hsh HK. unfold phase6.
  eapply runs_bind; [|apply runs_ret].
  replace (Z.to_nat (Z.of_nat h + 1)) with (S h) by lia.
  destruct fo;
  match goal with |- runs ?T ?K ?fo ?ro (for_range_acc _ ?body _) _ _ _ _ _ =>
    refine (runs_for_range_acc T K fo ro (st6 T K fo nh h) (w6 fo h) (fun i => S h / 2 <? i) (S h) body _) end;
  intros i Hi; unfold phase6_body;
  rewrite z_div2, z_eqb_nat, z_mod2_1, z_mod2_0, <- Nat.negb_even;
  destruct (Nat.eqb_spec i (S h / 2)), (Nat.even h) eqn:Ev, (Nat.ltb_spec (S h / 2) i); cbn [andb negb];
  try lia; shape_cases T Hsh; shape_facts Hsh.
  all: eapply runs_conseq3; [prim|cur_eq|w6_tac|acc_tac].
Qed.

Lemma phase7_runs T K fo ro nh h :
  shape_ok T nh h -> 2 * nh <= K ->
  runs T K fo ro (phase7 T (nh - h - 1)) (st7 T K fo nh h 0) (bw fo (S h)) tt
    (st7 T K fo nh h (nh - h - 1)) (bw fo (S h)).
Proof.
  intros Hsh HK. unfold phase7.
  apply (runs_for_range _ _ _ _ (st7 _ _ _ nh h) (fun _ => bw fo (S h))); intros i Hi.
  shape_cases T Hsh; shape_facts Hsh; destruct fo.
  all: eapply runs_conseq; [prim|cur_eq|unfold bw; cbn; lia].
Qed.


Lemma phase8_runs T K fo ro nh h :
  shape_ok T nh h -> 2 * nh <= K ->
  runs T K fo ro (phase8 (S h)) (st7 T K fo nh h (nh - h - 1)) (bw fo (S h)) tt
    (st7 T K fo nh h (nh - h - 1)) 0.
Proof.
  intros Hsh HK. unfold phase8.
  assert (E : forall n, n <= S h -> runs T K fo ro (for_range n (fun i => emit (EIter 8 i);; weight_chunk))
    (st7 T K fo nh h (nh - h - 1)) (bw fo (S h)) tt (st7 T K fo nh h (nh - h - 1)) (bw fo (S h - n))).
  { intros n. 
    replace (bw fo (S h)) with ((fun i => bw fo (S h - i)) 0) by (f_equal; lia).
    intros Hn.
    apply (runs_for_range _ _ _ _ (fun _ => st7 T K fo nh h (nh - h - 1)) (fun i => bw fo (S h - i))); intros i Hi.
    shape_cases T Hsh; shape_facts Hsh; destruct fo.
    all: rewrite (Nat.sub_succ_l i h) by lia; eapply runs_conseq; [prim|reflexivity|unfold bw; cbv beta iota; lia]. }
  eapply runs_conseq; [apply E; lia|reflexivity|unfold bw; destruct fo; lia].
Qed.

Lemma w6_end fo h : w6 fo h (S h) = bw fo (S h).
Proof.
  unfold w6, bw. destruct fo; [reflexivity|].
  pose proof (Nat.div_mod (S h) 2 ltac:(lia)) as D.
  rewrite <- Nat.bit0_mod, Nat.bit0_odd in D. cbn [Nat.odd] in D.
  rewrite Nat.odd_succ in D.
  destruct (Nat.leb_spec (S h) (S h / 2)), (Nat.even h); cbn [Nat.b2n] in D; cbv beta iota; lia.
Qed.

Section Bounds.
Variables (T : dualpipe) (K : nat) (fo : bool) (nh h : nat).
Hypotheses (Hsh : shape_ok T nh h) (HK : 2 * nh <= K).

Lemma b23 : st2 T fo nh h (S h) = st3 T fo nh h 0.
Proof. clear HK; destruct T as [? ? ? ? ? ? fr lr sh md ?]; destruct fr, lr, sh, md, fo; cur_eq. Qed.
Lemma b34 : st3 T fo nh h (nh - h - 1) = st4 T fo nh h 0.
Proof. clear HK; destruct T as [? ? ? ? ? ? fr lr sh md ?]; destruct fr, lr, sh, md, fo; cur_eq. Qed.
Lemma b45 : st4 T fo nh h (K - 2 * nh + h + 1) = st5 T K fo nh h 0.
Proof. destruct Hsh as [Hh _]. destruct T as [? ? ? ? ? ? fr lr sh md ?]; destruct fr, lr, sh, md, fo; cur_eq. Qed.
Lemma b56 : st5 T K fo nh h (nh - h - 1) = st6 T K fo nh h 0.
Proof. destruct Hsh as [Hh _]. destruct T as [? ? ? ? ? ? fr lr sh md ?]; destruct fr, lr, sh, md, fo; cur_eq. Qed.
Lemma b67 : st6 T K fo nh h (S h) = st7 T K fo nh h 0.
Proof. destruct Hsh as [Hh _]. destruct T as [? ? ? ? ? ? fr lr sh md ?]; destruct fr, lr, sh, md, fo; cur_eq. Qed.
Lemma b7f : st7 T K fo nh h (nh - h - 1) =
  mkTwo (final_cursors T K fo false) (final_cursors T K fo true).
Proof.
  destruct Hsh as (Hh & Hz & Hm & Hf & Hl).
  destruct T as [? ? ? ? ? ? fr lr sh md ?]; unfold ends, second_half in *; cbn in *.
  destruct fr, lr, sh, md, fo; cbn in *; try (exfalso; intuition congruence);
  unfold final_cursors, is_first_stage, is_last_stage; cbn; cur_eq.
Qed.
End Bounds.

Lemma run_phases_runs T K fo ro nh h :
  shape_ok T nh h -> 2 * nh <= K -> num_ranks T = 2 * nh ->
  runs T K fo ro (run_phases T (Z.of_nat nh) (Z.of_nat h) (Z.of_nat K)) (st1 T fo 0) 0 tt
    (mkTwo (final_cursors T K fo false) (final_cursors T K fo true)) 0.
Proof.
  intros Hsh HK Hn. pose proof Hsh as (Hh & _).
  unfold run_phases; cbv zeta. rewrite Hn.
  replace (Z.to_nat ((Z.of_nat nh - Z.of_nat h - 1) * 2)) with (2 * (nh - h - 1)) by lia.
  replace (Z.to_nat (Z.of_nat nh - Z.of_nat h - 1)) with (nh - h - 1) by lia.
  replace (Z.to_nat (Z.of_nat K - Z.of_nat (2 * nh) + Z.of_nat h + 1))
    with (K - 2 * nh + h + 1) by lia.
  replace (Z.to_nat (Z.of_nat h + 1)) with (S h) by lia.
  eapply runs_bind; [apply (phase1_runs T K fo ro nh h); auto|].
  eapply runs_bind; [apply (phase2_runs T K fo ro nh h); auto|].
  rewrite b23 by auto.
  eapply runs_bind; [apply (phase3_runs T K fo ro nh h); auto|].
  rewrite b34 by auto.
  eapply runs_bind; [apply (phase4_runs T K fo ro nh h); auto|].
  rewrite b45 by auto.
  eapply runs_bind; [apply (phase5_runs T K fo ro nh h); auto|].
  rewrite b56 by auto.
  eapply runs_bind; [apply (phase6_runs T K fo ro nh h); auto|].
  rewrite b67, w6_end by auto.
  eapply runs_bind; [apply (phase7_runs T K fo ro nh h); auto|].
  rewrite <- (b7f T K fo nh h) by auto.
  apply (phase8_runs T K fo ro nh h); auto.
Qed.

Lemma wf_shape T :
  wf T -> num_ranks T mod 2 = 0 ->
  shape_ok T (num_ranks T / 2) (Nat.min (rank T) (num_ranks T - 1 - rank T)).
Proof.
  intros (H2 & Hr & Hf & Hl & Hs & Hm) Hev.
  pose proof (Nat.div_mod (num_ranks T) 2 ltac:(lia)) as D. rewrite Hev in D.
  unfold shape_ok, ends, second_half. rewrite Hf, Hl, Hs, Hm.
  set (n := num_ranks T) in *. set (r := rank T) in *. set (m := n / 2) in *.
  repeat match goal with
  | |- context [Nat.eqb ?a ?b] => destruct (Nat.eqb_spec a b)
  | |- context [Nat.ltb ?a ?b] => destruct (Nat.ltb_spec a b)
  | |- context [Nat.leb ?a ?b] => destruct (Nat.leb_spec a b)
  end; cbn [andb orb negb];
  repeat split; intros; try discriminate; try reflexivity; lia.
Qed.

Lemma st1_zero T fo : st1 T fo 0 = mkTwo cursors0 cursors0.
Proof. unfold st1, lmk, cur0, cur1, nz, bw; destruct (second_half T), (ends T), fo; reflexivity. Qed.

Lemma live_some_all (l : list chunk) : live (map Some l) 0.
Proof.
  intros i x E. rewrite nth_error_map in E.
  destruct (nth_error l i); cbn in E; [|discriminate]. injection E as <-. split; [discriminate|lia].
Qed.

Lemma prologue_runs T ge nc crit ro s :
  wf T ->
  (Z.of_nat (num_ranks T) mod 2 = 0)%Z -> (0 < nc)%Z -> (nc mod 2 = 0)%Z ->
  (Z.of_nat (num_ranks T) * 2 <= nc)%Z ->
  (ge = true -> is_first_rank T || is_last_rank T = true -> crit = true) ->
  exists s1, step_prologue T true ge nc crit ro s =
    Ok (Z.of_nat (num_ranks T) / 2,
        Z.min (Z.of_nat (rank T)) (Z.of_nat (num_ranks T) - 1 - Z.of_nat (rank T)),
        nc / 2)%Z s1 /\
    rel T (Z.to_nat (nc / 2)) (negb ge) ro (st1 T (negb ge) 0) 0 s1 /\ trace s1 = trace s.
Proof.
  intros HT En Hp Hc Hle Hcr.
  assert (E1 : (Z.of_nat (num_ranks T) mod 2 =? 0)%Z = true) by (apply Z.eqb_eq; exact En).
  assert (E2 : ((0 <? nc) && (nc mod 2 =? 0) && (Z.of_nat (num_ranks T) * 2 <=? nc))%Z = true).
  { rewrite (proj2 (Z.ltb_lt _ _) Hp), (proj2 (Z.eqb_eq _ _) Hc), (proj2 (Z.leb_le _ _) Hle). reflexivity. }
  rewrite st1_zero.
  unfold step_prologue. cbv zeta. cbn [negb]. rewrite E1, E2. cbn [negb].
  unfold reset_states, wgs_clear, bind, modify, get, ret, raise.
  destruct HT as (H2 & Hr & Hf & Hl & _).
  set (K := Z.to_nat (nc / 2)).
  assert (LK : length (map Some (scatter K)) = K) by (rewrite length_map; apply length_seq).
  pose proof (live_some_all (scatter K)) as LV.
  clearbody K.
  destruct (is_first_rank T) eqn:F, (is_last_rank T) eqn:L;
    [exfalso; symmetry in Hf, Hl;
     apply Nat.eqb_eq in Hf; apply Nat.eqb_eq in Hl; lia| | |];
  destruct ge, crit; cbn [negb andb orb];
    try (exfalso; specialize (Hcr eq_refl eq_refl); discriminate).
  all: eexists; split; [reflexivity|].
  all: cbn.
  all: split; [|reflexivity].
  all: unfold rel; cbn [forward_only return_outputs cur wgs chunks loss_chunks criterion labels
    funcs_queue cache set_criterion set_labels set_chunks set_comm set_cur set_loss set_wgs
    set_halves set_mode length].
  all: refine (conj eq_refl (conj eq_refl (conj eq_refl (conj eq_refl (conj eq_refl
    (conj _ (conj _ (conj _ _)))))))).
  all: first
    [ solve [intros [|]; unfold phase_inv, cursor_order, is_first_stage, is_last_stage;
       rewrite ?F, ?L; cbn [andb orb negb sel at0 at1 inp out ig og with_inp queues0 cursors0
         f_id b_id send_f_id send_b_id recv_f_id recv_b_id length];
       repeat match goal with |- _ /\ _ => split end;
       auto using live_nil; try lia; destruct ro; cbn; auto using live_nil]
    | solve [unfold loss_len, is_last_stage; rewrite ?F, ?L; cbn; reflexivity]
    | solve [intros [|]; unfold is_last_stage; rewrite ?F, ?L; cbn; intros; try discriminate;
       eexists; split; [reflexivity|cbn; apply length_seq]]
    | solve [intros ? HH; rewrite ?F, ?L in HH; try reflexivity; discriminate]
    | idtac ].
Qed.

Lemma step_phases_ok T ge nc crit ro s :
  wf T ->
  (Z.of_nat (num_ranks T) mod 2 = 0)%Z -> (0 < nc)%Z -> (nc mod 2 = 0)%Z ->
  (Z.of_nat (num_ranks T) * 2 <= nc)%Z ->
  (ge = true -> is_first_rank T || is_last_rank T = true -> crit = true) ->
  exists s', step_phases T true ge nc crit ro s = Ok tt s' /\
    rel T (Z.to_nat (nc / 2)) (negb ge) ro
      (mkTwo (final_cursors T (Z.to_nat (nc / 2)) (negb ge) false)
             (final_cursors T (Z.to_nat (nc / 2)) (negb ge) true)) 0 s' /\
    exists new, trace s' = trace s ++ new /\ Forall (snap_ok T) new.
Proof.
  intros HT En Hp Hc Hle Hcr.
  destruct (prologue_runs T ge nc crit ro s HT En Hp Hc Hle Hcr) as (s1 & E & R1 & Tr1).
  unfold step_phases, bind at 1. rewrite E. cbv beta iota.
  pose proof HT as (H2 & Hr & _).
  set (n := num_ranks T) in *. set (r := rank T) in *.
  assert (Hev : n mod 2 = 0).
  { apply Nat2Z.inj. rewrite Nat2Z.inj_mod. exact En. }
  pose proof (Nat.div_mod n 2 ltac:(lia)) as D. rewrite Hev in D.
  replace (Z.of_nat n / 2)%Z with (Z.of_nat (n / 2)) by (rewrite Nat2Z.inj_div; reflexivity).
  replace (Z.min (Z.of_nat r) (Z.of_nat n - 1 - Z.of_nat r))
    with (Z.of_nat (Nat.min r (n - 1 - r))) by lia.
  assert (HK : 2 * (n / 2) <= Z.to_nat (nc / 2)).
  { assert (Z.of_nat n <= nc / 2)%Z by (apply Z.div_le_lower_bound; lia). lia. }
  assert (EK : (nc / 2 = Z.of_nat (Z.to_nat (nc / 2)))%Z)
    by (rewrite Z2Nat.id; [reflexivity|apply Z.div_pos; lia]).
  set (K := Z.to_nat (nc / 2)) in *. rewrite EK.
  destruct (run_phases_runs T K (negb ge) ro (n / 2) (Nat.min r (n - 1 - r))
              (wf_shape T HT Hev) HK ltac:(lia) s1 R1) as (s2 & E2 & R2 & new & Tr2 & F2).
  exists s2. split; [exact E2|]. split; [exact R2|].
  exists new. rewrite Tr2, Tr1. auto.
Qed.

Lemma step_ok T ge nc crit ro s :
  wf T ->
  (Z.of_nat (num_ranks T) mod 2 = 0)%Z -> (0 < nc)%Z -> (nc mod 2 = 0)%Z ->
  (Z.of_nat (num_ranks T) * 2 <= nc)%Z ->
  (ge = true -> is_first_rank T || is_last_rank T = true -> crit = true) ->
  exists r s', step T true ge nc crit ro s = Ok r s' /\
    exists new, trace s' = trace s ++ new /\ Forall (snap_ok T) new.
Proof.
  intros HT En Hp Hc Hle Hcr.
  destruct (step_phases_ok T ge nc crit ro s HT En Hp Hc Hle Hcr)
    as (s8 & E8 & R8 & new & Tr8 & F8).
  unfold step, bind at 1. rewrite E8.
  unfold step_epilogue. rewrite bind_get.
  pose proof R8 as (_ & _ & _ & Hw & _).
  destruct (funcs_queue (wgs s8)) eqn:Q; [|discriminate].
  destruct (commit_runs T _ _ _ _ _ s8 R8) as (s9 & E9 & _ & new9 & Tr9 & F9).
  unfold bind at 1. rewrite E9. rewrite bind_get.
  unfold reset_states, wgs_clear, bind, modify, ret.
  eexists _, _. split; [reflexivity|].
  exists (new ++ new9). cbn. rewrite Tr9, Tr8, app_assoc. split; [reflexivity|].
  apply Forall_app; auto.
Qed.


(** ** The complete schedule *)

(** C2: on a rank built by [__init__], a [step] with an even number of
    ranks, an even [num_chunks >= 2 * num_ranks] and the other
    preconditions of [step] (shape configuration set; a criterion on the
    first and last ranks when gradients are on) returns, and it has run
    the eight phases in order with the iteration counts
    [(numHalfRanks-halfRank-1)*2], [halfRank+1], [numHalfRanks-halfRank-1],
    [halfNumChunks-numRanks+halfRank+1], [numHalfRanks-halfRank-1],
    [halfRank+1], [numHalfRanks-halfRank-1], [halfRank+1]
    ([table_counts]). *)
Theorem step_phase_counts T ge nc crit ro s :
  wf T ->
  (Z.of_nat (num_ranks T) mod 2 = 0)%Z -> (nc mod 2 = 0)%Z ->
  (Z.of_nat (num_ranks T) * 2 <= nc)%Z ->
  (ge = true -> is_first_rank T || is_last_rank T = true -> crit = true) ->
  exists r s', step T true ge nc crit ro s = Ok r s' /\
    exists new, trace s' = trace s ++ new /\
      flat_map iter_proj new =
      iter_log (table_counts (Z.of_nat (num_ranks T)) (Z.of_nat (rank T)) nc).
Proof.
  intros HT En Hc Hle Hcr.
  assert (Hp : (0 < nc)%Z) by (destruct HT; lia).
  destruct (step_ok T ge nc crit ro s HT En Hp Hc Hle Hcr) as (r & s' & E & _).
  exists r, s'. split; [exact E|].
  exact (step_iters T true ge nc crit ro s r s' E).
Qed.

Lemma step_phase_counts_witness :
  wf (demo_rank 4 1) /\
  exists r s', step (demo_rank 4 1) true true 8 true false fresh = Ok r s' /\
    exists new, trace s' = trace fresh ++ new /\
      flat_map iter_proj new =
      iter_log (table_counts (Z.of_nat (num_ranks (demo_rank 4 1)))
                             (Z.of_nat (rank (demo_rank 4 1))) 8).
Proof.
  assert (HT : wf (demo_rank 4 1)) by (vm_compute; repeat split; lia).
  split; [exact HT|].
  apply (step_phase_counts (demo_rank 4 1) true 8 true false fresh HT);
    vm_compute; try reflexivity; try discriminate; auto.
Defined.

(** C3, counterexample: on logical rank 0 of two ranks, with 4 chunks,
    at the end of phase 8 the forward compute cursor of the first stage
    is 2 while its receive cursor is 0 (the inputs come from [scatter],
    not from [_recv_forward]): [compute <= recv] fails there, and the
    receive cursor is not [numChunks/2]. *)
Lemma cursor_order_counterexample :
  ok_and (step_phases (demo_rank 2 0) true true 4 true false fresh)
    (fun s => is_first_stage (demo_rank 2 0) false = true /\
              f_id (at0 (cur s)) = 2 /\ recv_f_id (at0 (cur s)) = 0).
Proof. vm_compute. auto. Qed.

(** C3 (amended): on a rank built by [__init__], with the preconditions
    of [step], every cursor update of the step leaves, on each physical
    phase, [send <= compute] for forward and backward and [compute <=
    recv] for forward and backward, except that on the first stage the
    forward receive and backward send cursors stay at 0 and on the last
    stage the backward receive and forward send cursors stay at 0
    ([cursor_order]); at the end of phase 8 the forward and backward
    compute cursors are [numChunks/2] and the send and receive cursors
    are [numChunks/2] except those pinned at 0 ([final_cursors], with
    the backward cursors at 0 in forward-only mode); the step returns. *)
Theorem cursor_invariant T ge nc crit ro s :
  wf T ->
  (Z.of_nat (num_ranks T) mod 2 = 0)%Z -> (nc mod 2 = 0)%Z ->
  (Z.of_nat (num_ranks T) * 2 <= nc)%Z ->
  (ge = true -> is_first_rank T || is_last_rank T = true -> crit = true) ->
  (exists s8, step_phases T true ge nc crit ro s = Ok tt s8 /\
     cur s8 = mkTwo (final_cursors T (Z.to_nat (nc / 2)) (negb ge) false)
                    (final_cursors T (Z.to_nat (nc / 2)) (negb ge) true)) /\
  (exists r s', step T true ge nc crit ro s = Ok r s' /\
     exists new, trace s' = trace s ++ new /\ Forall (snap_ok T) new).
Proof.
  intros HT En Hc Hle Hcr.
  assert (Hp : (0 < nc)%Z) by (destruct HT; lia).
  split.
  - destruct (step_phases_ok T ge nc crit ro s HT En Hp Hc Hle Hcr)
      as (s8 & E8 & (_ & _ & Hcur & _) & _).
    exists s8. split; [exact E8|exact Hcur].
  - exact (step_ok T ge nc crit ro s HT En Hp Hc Hle Hcr).
Qed.

Lemma cursor_invariant_witness :
  wf (demo_rank 4 1) /\
  (exists s8, step_phases (demo_rank 4 1) true true 8 true false fresh = Ok tt s8 /\
     cur s8 = mkTwo (final_cursors (demo_rank 4 1) (Z.to_nat (8 / 2)) (negb true) false)
                    (final_cursors (demo_rank 4 1) (Z.to_nat (8 / 2)) (negb true) true)) /\
  (exists r s', step (demo_rank 4 1) true true 8 true false fresh = Ok r s' /\
     exists new, trace s' = trace fresh ++ new /\ Forall (snap_ok (demo_rank 4 1)) new).
Proof.
  assert (HT : wf (demo_rank 4 1)) by (vm_compute; repeat split; lia).
  split; [exact HT|].
  apply (cursor_invariant (demo_rank 4 1) true 8 true false fresh HT);
    vm_compute; try reflexivity; try discriminate; auto.
Defined.

(** C4, counterexample: on logical rank 0 of two ranks, with 4 chunks and
    gradients off, at the end of phase 8 the backward compute cursor is 0,
    not [numChunks/2 = 2]. *)
Lemma forward_only_cursors_counterexample :
  ok_and (step_phases (demo_rank 2 0) true false 4 false false fresh)
    (fun s => forward_only s = true /\ b_id (at0 (cur s)) = 0 /\ f_id (at0 (cur s)) = 2).
Proof. vm_compute. auto. Qed.

(** C4 (amended): on a rank built by [__init__], for an even number of
    ranks and an even [num_chunks >= 2 * num_ranks], a forward-only
    [step] (shape configuration set, gradients off) returns; at the end
    of phase 8, on each physical phase, the forward compute cursor is
    [numChunks/2], the forward send cursor is [numChunks/2] except on the
    last stage (0), the forward receive cursor is [numChunks/2] except on
    the first stage (0), the three backward cursors are 0, and the
    weight-gradient queue is empty, as it is after the step. *)
Theorem forward_only_step T nc crit ro s :
  wf T ->
  (Z.of_nat (num_ranks T) mod 2 = 0)%Z -> (nc mod 2 = 0)%Z ->
  (Z.of_nat (num_ranks T) * 2 <= nc)%Z ->
  (exists s8, step_phases T true false nc crit ro s = Ok tt s8 /\
     (forall p, sel p (cur s8) =
        let K := Z.to_nat (nc / 2) in
        mkCursors K 0 (if is_last_stage T p then 0 else K) 0
                  (if is_first_stage T p then 0 else K) 0) /\
     funcs_queue (wgs s8) = []) /\
  (exists r s', step T true false nc crit ro s = Ok r s' /\ funcs_queue (wgs s') = []).
Proof.
  intros HT En Hc Hle.
  assert (Hp : (0 < nc)%Z) by (destruct HT; lia).
  assert (Hcr : false = true -> is_first_rank T || is_last_rank T = true -> crit = true)
    by discriminate.
  split.
  - destruct (step_phases_ok T false nc crit ro s HT En Hp Hc Hle Hcr)
      as (s8 & E8 & (_ & _ & Hcur & Hw & _) & _).
    exists s8. split; [exact E8|]. split.
    + intros p. rewrite Hcur. destruct p; reflexivity.
    + destruct (funcs_queue (wgs s8)); [reflexivity|discriminate].
  - destruct (step_ok T false nc crit ro s HT En Hp Hc Hle Hcr) as (r & s' & E & _).
    exists r, s'. split; [exact E|].
    unfold step, bind at 1 in E.
    destruct (step_phases T true false nc crit ro s) as [u s1|] eqn:E1; [|discriminate].
    unfold step_epilogue in E. rewrite bind_get in E.
    destruct (funcs_queue (wgs s1)); [|discriminate].
    unfold commit_and_wait_comm, reset_states, wgs_clear, bind, get, ret, modify in E.
    destruct (comm_ops s1); injection E as _ <-; reflexivity.
Qed.

Lemma forward_only_step_witness :
  wf (demo_rank 4 0) /\
  (exists s8, step_phases (demo_rank 4 0) true false 8 false false fresh = Ok tt s8 /\
     (forall p, sel p (cur s8) =
        let K := Z.to_nat (8 / 2) in
        mkCursors K 0 (if is_last_stage (demo_rank 4 0) p then 0 else K) 0
                  (if is_first_stage (demo_rank 4 0) p then 0 else K) 0) /\
     funcs_queue (wgs s8) = []) /\
  (exists r s', step (demo_rank 4 0) true false 8 false false fresh = Ok r s' /\
     funcs_queue (wgs s') = []).
Proof.
  assert (HT : wf (demo_rank 4 0)) by (vm_compute; repeat split; lia).
  split; [exact HT|].
  apply (forward_only_step (demo_rank 4 0) 8 false false fresh HT);
    vm_compute; try reflexivity; try discriminate.
Defined.

(* ================================================================== *)
(** * Further results on [step] and [__init__] *)

Lemma keeps_ret {A} P (a : A) : keeps P (ret a).
Proof. intros s a' s' H E; injection E as _ <-; exact H. Qed.

Lemma keeps_raise {A} P e : keeps P (@raise A e).
Proof. intros s a s' _ E; discriminate. Qed.

Lemma keeps_get P : keeps P get.
Proof. intros s a s' H E; injection E as _ <-; exact H. Qed.

Lemma keeps_modify P g : (forall s, P s -> P (g s)) -> keeps P (modify g).
Proof. intros Hg s a s' H E; injection E as _ <-; auto. Qed.

Lemma keeps_bind {A B} P (m : M A) (k : A -> M B) :
  keeps P m -> (forall a, keeps P (k a)) -> keeps P (bind m k).
Proof.
  intros Hm Hk s b s' H E. unfold bind in E.
  destruct (m s) as [a s1|e s1] eqn:Es; [|discriminate].
  eapply Hk; [eapply Hm; eauto|exact E].
Qed.

Lemma keeps_when P b m : keeps P m -> keeps P (when b m).
Proof. destruct b; simpl; auto using keeps_ret. Qed.

Lemma keeps_lookup {A} P (l : list A) k : keeps P (lookup l k).
Proof. unfold lookup; destruct (nth_error l k); auto using keeps_ret, keeps_raise. Qed.

Lemma keeps_unpack P x : keeps P (unpack x).
Proof. unfold unpack; destruct x; auto using keeps_ret, keeps_raise. Qed.

Lemma keeps_assign {A} P (l : list A) k v : keeps P (assign l k v).
Proof. unfold assign; destruct (set_nth l k v); auto using keeps_ret, keeps_raise. Qed.

Lemma keeps_for_range P n body :
  (forall i, keeps P (body i)) -> keeps P (for_range n body).
Proof. intros H; induction n; simpl; auto using keeps_ret, keeps_bind. Qed.

Lemma keeps_for_range_acc {A} P n (body : nat -> A -> M A) a :
  (forall i x, keeps P (body i x)) -> keeps P (for_range_acc n body a).
Proof. intros H; induction n; simpl; auto using keeps_ret, keeps_bind. Qed.

Ltac keeps_step :=
  match goal with
  | |- keeps _ (bind _ _) => apply keeps_bind; [|intros]
  | |- keeps _ (ret _) => apply keeps_ret
  | |- keeps _ (raise _) => apply keeps_raise
  | |- keeps _ get => apply keeps_get
  | |- keeps _ (emit _) => apply keeps_modify; intros ? ?
  | |- keeps _ (modify _) => apply keeps_modify; intros ? ?
  | |- keeps _ (when _ _) => apply keeps_when
  | |- keeps _ (lookup _ _) => apply keeps_lookup
  | |- keeps _ (unpack _) => apply keeps_unpack
  | |- keeps _ (assign _ _ _) => apply keeps_assign
  | |- keeps _ (for_range _ _) => apply keeps_for_range; intros
  | |- keeps _ (for_range_acc _ _ _) => apply keeps_for_range_acc; intros
  | |- keeps _ (if ?b then _ else _) => destruct b eqn:?
  | |- keeps _ (match ?x with _ => _ end) => destruct x
  end.

Ltac keeps_unfold :=
  unfold forward_chunk, backward_chunk, forward_backward_chunk,
    recv_forward, send_forward, recv_backward, send_backward,
    forward_compute_chunk, backward_compute_chunk, forward_backward_compute_chunk,
    weight_chunk, commit_and_wait_comm, update_cursors, update_queues, labels_of,
    append_irecv, append_isend, run_backward, emit,
    wgs_set_enabled, wgs_flush, wgs_pop;
  cbv zeta.

Lemma compute_criterion T c :
  (forall ph, keeps (fun s => criterion s = c) (forward_compute_chunk T ph)) /\
  (forall ph zb, keeps (fun s => criterion s = c) (backward_compute_chunk T ph zb)).
Proof. split; intros; keeps_unfold; repeat keeps_step; cbn; try assumption. Qed.

Lemma run_phases_criterion T nh h k c :
  keeps (fun s => criterion s = c) (run_phases T nh h k).
Proof.
  pose proof (compute_criterion T c) as [Hf Hb].
  unfold run_phases, phase1, phase2, phase3, phase4, phase5, phase6, phase6_body,
    phase7, phase8.
  keeps_unfold.
  repeat first [keeps_step | apply Hf | apply Hb]; cbn; try assumption.
Qed.

Lemma prologue_criterion T sh ge nc crit ro s a s' :
  step_prologue T sh ge nc crit ro s = Ok a s' -> criterion s' = crit.
Proof.
  unfold step_prologue, reset_states, wgs_clear, bind, ret, raise, modify, get.
  intros H.
  repeat match type of H with context [if ?b then _ else _] => destruct b end;
    try discriminate; injection H as _ <-; reflexivity.
Qed.

Lemma prologue_errors T sh ge nc crit ro s e s' :
  step_prologue T sh ge nc crit ro s = Err e s' ->
  In e [AssertShapes; AssertRanks; AssertChunks; AssertCriterion].
Proof.
  unfold step_prologue, reset_states, wgs_clear, bind, ret, raise, modify, get.
  intros H.
  repeat match type of H with context [if ?b then _ else _] => destruct b end;
    try discriminate; injection H as <- _; simpl; tauto.
Qed.

(** Either a precondition of [step] is violated or all of them hold. *)
Lemma bad_call_cases T sh ge nc crit :
  bad_call T sh ge nc crit \/
  (sh = true /\ (Z.of_nat (num_ranks T) mod 2 = 0)%Z /\ (0 < nc)%Z /\ (nc mod 2 = 0)%Z /\
   (Z.of_nat (num_ranks T) * 2 <= nc)%Z /\
   (ge = true -> is_first_rank T || is_last_rank T = true -> crit = true)).
Proof.
  unfold bad_call.
  destruct sh; [|left; left; reflexivity].
  destruct (Z.eq_dec (Z.of_nat (num_ranks T) mod 2) 0) as [Hr|Hr]; [|left; right; left; exact Hr].
  destruct (Z_lt_dec 0 nc) as [H1|H1]; [|left; right; right; left; tauto].
  destruct (Z.eq_dec (nc mod 2) 0) as [H2|H2]; [|left; right; right; left; tauto].
  destruct (Z_le_dec (Z.of_nat (num_ranks T) * 2) nc) as [H3|H3];
    [|left; right; right; left; tauto].
  destruct ge, (is_first_rank T || is_last_rank T), crit;
    try (left; right; right; right; auto; fail);
    right; repeat split; auto; intros; discriminate.
Qed.

Lemma step_result T ge nc crit ro s :
  wf T ->
  (Z.of_nat (num_ranks T) mod 2 = 0)%Z -> (0 < nc)%Z -> (nc mod 2 = 0)%Z ->
  (Z.of_nat (num_ranks T) * 2 <= nc)%Z ->
  (ge = true -> is_first_rank T || is_last_rank T = true -> crit = true) ->
  exists s8, step_phases T true ge nc crit ro s = Ok tt s8 /\
    rel T (Z.to_nat (nc / 2)) (negb ge) ro
      (mkTwo (final_cursors T (Z.to_nat (nc / 2)) (negb ge) false)
             (final_cursors T (Z.to_nat (nc / 2)) (negb ge) true)) 0 s8 /\
    criterion s8 = crit /\
    exists s', step T true ge nc crit ro s =
      Ok ((if (is_first_rank T || is_last_rank T) && crit then Some (loss_chunks s8) else None),
          (if (is_first_rank T || is_last_rank T) && ro
           then Some (gather (out (sel (is_first_rank T) (chunks s8)))) else None)) s'.
Proof.
  intros HT En Hp Hc Hle Hcr.
  destruct (step_phases_ok T ge nc crit ro s HT En Hp Hc Hle Hcr)
    as (s8 & E8 & R8 & _).
  exists s8. split; [exact E8|]. split; [exact R8|]. split.
  - unfold step_phases, bind at 1 in E8.
    destruct (step_prologue T true ge nc crit ro s) as [[[nh h] k] s1|] eqn:E1;
      [|discriminate].
    exact (run_phases_criterion T nh h k crit s1 tt s8 (prologue_criterion _ _ _ _ _ _ _ _ _ E1) E8).
  - unfold step, bind at 1. rewrite E8.
    unfold step_epilogue. rewrite bind_get.
    pose proof R8 as (_ & _ & _ & Hw & _).
    destruct (funcs_queue (wgs s8)) eqn:Q; [|discriminate].
    unfold commit_and_wait_comm, bind, get.
    destruct (comm_ops s8); unfold reset_states, wgs_clear, bind, modify, ret;
      eexists; reflexivity.
Qed.

Lemma live_all_none l k : live l k -> length l <= k -> Forall (fun x => x = None) l.
Proof.
  intros L H. apply Forall_forall. intros x Hx.
  destruct (In_nth_error _ _ Hx) as [i Ei].
  apply (L i x Ei).
  assert (HN : nth_error l i <> None) by (intros E; unfold slot in *; congruence).
  apply nth_error_Some in HN. lia.
Qed.

Lemma live_all_some l : live l 0 -> Forall (fun x => x <> None) l.
Proof.
  intros L. apply Forall_forall. intros x Hx E.
  destruct (In_nth_error _ _ Hx) as [i Ei].
  apply (L i x Ei) in E. lia.
Qed.

Lemma wf_not_both T : wf T -> is_first_rank T = true -> is_last_rank T = false.
Proof.
  intros (H2 & _ & Hf & Hl & _) F. rewrite Hl. rewrite F in Hf.
  symmetry in Hf. apply Nat.eqb_eq in Hf. apply Nat.eqb_neq. lia.
Qed.

Lemma wf_nc_pos T nc : wf T -> (Z.of_nat (num_ranks T) * 2 <= nc)%Z -> (0 < nc)%Z.
Proof. intros (H2 & _); lia. Qed.
(** X2: with the preconditions of [step], at the end of phase 8 every
    input chunk of both physical phases has been released ([num_chunks /
    2] slots, all [None]); in training mode so has every output-gradient
    chunk, every output chunk unless [return_outputs] is set, and every
    input-gradient chunk except on the first stage, where all
    [num_chunks / 2] input gradients are kept. *)
Theorem buffers_released T ge nc crit ro s :
  wf T ->
  (Z.of_nat (num_ranks T) mod 2 = 0)%Z -> (nc mod 2 = 0)%Z ->
  (Z.of_nat (num_ranks T) * 2 <= nc)%Z ->
  (ge = true -> is_first_rank T || is_last_rank T = true -> crit = true) ->
  exists s8, step_phases T true ge nc crit ro s = Ok tt s8 /\
    forall p, let q := sel p (chunks s8) in
    length (inp q) = Z.to_nat (nc / 2) /\ Forall (fun x => x = None) (inp q) /\
    (ge = true ->
       Forall (fun x => x = None) (og q) /\
       (ro = false -> Forall (fun x => x = None) (out q)) /\
       (is_first_stage T p = false -> Forall (fun x => x = None) (ig q)) /\
       (is_first_stage T p = true ->
          length (ig q) = Z.to_nat (nc / 2) /\ Forall (fun x => x <> None) (ig q))).
Proof.
  intros HT En Hc Hle Hcr.
  destruct (step_phases_ok T ge nc crit ro s HT En (wf_nc_pos T nc HT Hle) Hc Hle Hcr)
    as (s8 & E8 & R8 & _).
  exists s8. split; [exact E8|]. intros p q.
  destruct R8 as (_ & _ & _ & _ & _ & Hinv & _).
  specialize (Hinv p).
  replace (sel p (mkTwo (final_cursors T (Z.to_nat (nc / 2)) (negb ge) false)
                        (final_cursors T (Z.to_nat (nc / 2)) (negb ge) true)))
    with (final_cursors T (Z.to_nat (nc / 2)) (negb ge) p) in Hinv
    by (destruct p; reflexivity).
  destruct Hinv as (Li & Vi & Lo & Vo & Lg & Vg & Lig & Vig & _).
  fold q in Li, Vi, Lo, Vo, Lg, Vg, Lig, Vig.
  set (K := Z.to_nat (nc / 2)) in *.
  unfold final_cursors in *.
  assert (HL : length (inp q) = K) by (rewrite Li; destruct (is_first_stage T p), (negb ge); reflexivity).
  split; [exact HL|]. split.
  { apply (live_all_none _ _ Vi). rewrite HL. destruct (negb ge); cbn; lia. }
  intros ->. cbn [negb] in *.
  split; [|split; [|split]].
  - apply (live_all_none _ _ Vg). rewrite Lg. cbn. destruct (is_last_stage T p); lia.
  - intros ->. apply (live_all_none _ _ Vo). rewrite Lo. cbn.
    destruct (is_last_stage T p); cbn; lia.
  - intros F. rewrite F in Vig. apply (live_all_none _ _ Vig). rewrite Lig. cbn. lia.
  - intros F. rewrite F in Vig. split; [exact Lig|]. exact (live_all_some _ Vig).
Qed.

(** X3: on a rank built by [__init__], [step] raises exactly when one of
    its preconditions is violated ([bad_call]), and what it raises is one
    of its four precondition assertions; with the preconditions it never
    raises (no [IndexError], [TypeError] or store assertion). *)
Theorem step_error_iff T sh ge nc crit ro s :
  wf T ->
  ((exists e s', step T sh ge nc crit ro s = Err e s') <-> bad_call T sh ge nc crit) /\
  (forall e s', step T sh ge nc crit ro s = Err e s' ->
     In e [AssertShapes; AssertRanks; AssertChunks; AssertCriterion]).
Proof.
  intros HT.
  destruct (bad_call_cases T sh ge nc crit) as [Hbad|(-> & En & Hp & Hc & Hle & Hcr)].
  - destruct (prologue_fails T sh ge nc crit ro s Hbad) as (e0 & s0 & E0 & _).
    assert (ES : step T sh ge nc crit ro s = Err e0 s0).
    { unfold step, step_phases. rewrite (bind_err _ _ _ _ _ (bind_err _ _ _ _ _ E0)).
      reflexivity. }
    rewrite ES. split; [split; [intros _; exact Hbad|eauto]|].
    intros e s' E. injection E as <- _. exact (prologue_errors _ _ _ _ _ _ _ _ _ E0).
  - destruct (step_ok T ge nc crit ro s HT En Hp Hc Hle Hcr) as (r & s' & E & _).
    rewrite E. split; [split|].
    + intros (e & s'' & H); discriminate.
    + intros Hbad. exfalso. unfold bad_call in Hbad.
      destruct Hbad as [H|[H|[H|(Hg & He & Hk)]]]; try discriminate; try tauto.
      rewrite (Hcr Hg He) in Hk. discriminate.
    + intros e s'' H; discriminate.
Qed.






Lemma fill_inverse_sound m cnt : forall inv i inv',
  fill_inverse m inv i cnt = Some inv' ->
  forall j x, nth_error inv' j = Some (Some x) ->
  nth_error inv j = Some (Some x) \/ nth_error m x = Some j.
Proof.
  induction cnt as [|c IH]; intros inv i inv' H; simpl in H.
  - injection H as <-. auto.
  - destruct (nth_error m i) as [y|] eqn:Ey; [|discriminate].
    destruct (set_nth inv y (Some i)) as [inv1|] eqn:Es; [|discriminate].
    intros j x Hj. destruct (IH _ _ _ H j x Hj) as [H1|H1]; [|auto].
    rewrite (set_nth_nth _ _ _ _ j Es) in H1.
    destruct (Nat.eqb_spec j y) as [->|]; [|auto].
    injection H1 as <-. auto.
Qed.

(** [rank_inverse_mapping] after the loop of [__init__], for a
    permutation: slot [j] holds [i] exactly when [rank_mapping[i] = j]. *)
Lemma fill_inverse_perm n mp inv :
  perm_ok n mp -> fill_inverse mp (repeat None (n + 1)) 0 n = Some inv ->
  length inv = n + 1 /\
  forall j i, nth_error inv j = Some (Some i) <-> nth_error mp i = Some j.
Proof.
  intros HP Ef.
  destruct (fill_inverse_spec _ _ _ _ _ Ef) as [Linv Finv].
  rewrite repeat_length in Linv. split; [exact Linv|].
  assert (Hm : firstn n (skipn 0 mp) = mp).
  { apply firstn_all2. destruct HP as [L _]; lia. }
  rewrite Hm in Finv.
  assert (Snd : forall j i, nth_error inv j = Some (Some i) -> nth_error mp i = Some j).
  { intros j i H. destruct (fill_inverse_sound _ _ _ _ _ Ef j i H) as [H0|H0]; [|exact H0].
    exfalso. apply nth_error_In in H0. apply repeat_spec in H0. discriminate. }
  intros j i. split; [apply Snd|]. intros Hi.
  assert (Hj : j < n) by (apply (perm_in n mp j HP), (nth_error_In _ _ Hi)).
  destruct (nth_error inv j) as [[i'|]|] eqn:E.
  - pose proof (Snd _ _ E) as Hi'. destruct HP as (L & N & _).
    rewrite (proj1 (NoDup_nth_error mp) N i' i); [reflexivity| |congruence].
    apply nth_error_Some. congruence.
  - apply Finv in E. exfalso. apply (proj2 E). apply (nth_error_In _ _ Hi).
  - apply nth_error_None in E. lia.
Qed.

(** X5: for a [rank_mapping] that is a permutation of [0 .. size-1] (the
    default mapping is one), the group ranks [__init__] records are those
    of the inverse mapping: [first_rank] is the group rank mapped to 0,
    [prev_rank] the one mapped to [rank - 1] (none on rank 0), [next_rank]
    the one mapped to [rank + 1] (none on the last rank), and [last_rank]
    the one mapped to [size - 1]. *)
Theorem init_neighbours ty0 ty1 ha n g m T :
  perm_ok n (match m with None => seq 0 n | Some l => l end) ->
  init ty0 ty1 ha n g m = Some T ->
  let mp := match m with None => seq 0 n | Some l => l end in
  (forall i, first_rank T = Some i <-> nth_error mp i = Some 0) /\
  (forall i, prev_rank T = Some i <-> 0 < rank T /\ nth_error mp i = Some (rank T - 1)) /\
  (forall i, next_rank T = Some i <-> nth_error mp i = Some (rank T + 1)) /\
  (forall i, last_rank T = Some i <-> nth_error mp i = Some (n - 1)).
Proof.
  intros HP H mp. fold mp in HP. unfold init in H. cbv zeta in H. fold mp in H.
  clearbody mp.
  destruct (fill_inverse mp (repeat None (n + 1)) 0 n) as [inv|] eqn:Ef; [|discriminate].
  destruct (fill_inverse_perm n mp inv HP Ef) as [Linv Key].
  destruct (nth_error mp g) as [r|] eqn:Eg; [|discriminate].
  assert (Hr : r < n) by (apply (perm_in n mp r HP), (nth_error_In _ _ Eg)).
  destruct (py_index inv 0) as [fr|] eqn:E0; [|discriminate].
  destruct (py_index inv (Z.of_nat r - 1)) as [pr|] eqn:Ep; [|discriminate].
  destruct (py_index inv (Z.of_nat r + 1)) as [nr|] eqn:En; [|discriminate].
  destruct (py_index inv (Z.of_nat n - 1)) as [lr|] eqn:El; [|discriminate].
  injection H as <-. cbn [first_rank prev_rank next_rank last_rank rank].
  change 0%Z with (Z.of_nat 0) in E0. rewrite (py_index_nat inv 0) in E0.
  replace (Z.of_nat r + 1)%Z with (Z.of_nat (r + 1)) in En by lia.
  rewrite py_index_nat in En.
  replace (Z.of_nat n - 1)%Z with (Z.of_nat (n - 1)) in El by lia.
  rewrite py_index_nat in El.
  split; [|split; [|split]]; intros i.
  - rewrite <- Key, E0. split; [intros ->; reflexivity|congruence].
  - destruct r as [|r'].
    + cbn in Ep. rewrite py_index_neg1, Linv in Ep. replace (n + 1 - 1) with n in Ep by lia.
      split; [|intros [H _]; lia]. intros ->. exfalso.
      apply Key in Ep. assert (n < n) by (apply (perm_in n mp n HP), (nth_error_In _ _ Ep)).
      lia.
    + replace (Z.of_nat (S r') - 1)%Z with (Z.of_nat r') in Ep by lia.
      rewrite py_index_nat in Ep. replace (S r' - 1) with r' by lia.
      rewrite <- Key, Ep. split; [intros ->; split; [lia|reflexivity]|intros [_ E]; congruence].
  - rewrite <- Key, En. split; [intros ->; reflexivity|congruence].
  - rewrite <- Key, El. split; [intros ->; reflexivity|congruence].
Qed.

Lemma bind_inv {A B} (m : M A) (k : A -> M B) s b s' :
  bind m k s = Ok b s' -> exists a s1, m s = Ok a s1 /\ k a s1 = Ok b s'.
Proof. unfold bind. destruct (m s); [eauto|discriminate]. Qed.

Lemma get_inv s a s' : get s = Ok a s' -> a = s /\ s' = s.
Proof. unfold get; intros H; injection H; auto. Qed.
Lemma modify_inv g s a s' : modify g s = Ok a s' -> s' = g s.
Proof. unfold modify; intros H; injection H; auto. Qed.
Lemma ret_inv {A} (x : A) s a s' : ret x s = Ok a s' -> a = x /\ s' = s.
Proof. unfold ret; intros H; injection H; auto. Qed.

Ltac inv_ok :=
  repeat (cbv beta in *; match goal with
  | H : bind _ _ _ = Ok _ _ |- _ =>
      let a := fresh "a" in let s := fresh "s" in let H1 := fresh "H" in
      apply bind_inv in H; destruct H as (a & s & H1 & H)
  | H : get _ = Ok _ _ |- _ => apply get_inv in H as [? ?]; subst
  | H : modify _ _ = Ok _ _ |- _ => apply modify_inv in H; subst
  | H : ret _ _ = Ok _ _ |- _ => apply ret_inv in H as [? ?]; subst
  | H : raise _ _ = Ok _ _ |- _ => discriminate H
  | H : when ?b _ _ = Ok _ _ |- _ => destruct b eqn:?; cbn [when] in H
  | H : lookup ?l ?k _ = Ok _ _ |- _ =>
      unfold lookup in H; destruct (nth_error l k) eqn:?
  | H : assign ?l ?k ?v _ = Ok _ _ |- _ =>
      unfold assign in H; destruct (set_nth l k v) eqn:?
  | H : unpack ?x _ = Ok _ _ |- _ => unfold unpack in H; destruct x eqn:?
  | H : (if ?b then _ else _) _ = Ok _ _ |- _ => destruct b eqn:?
  | H : (match ?x with _ => _ end) _ = Ok _ _ |- _ => destruct x eqn:?
  | H : emit _ _ = Ok _ _ |- _ => unfold emit in H
  | H : update_cursors _ _ _ = Ok _ _ |- _ => unfold update_cursors in H
  | H : update_queues _ _ _ = Ok _ _ |- _ => unfold update_queues in H
  | H : labels_of _ _ = Ok _ _ |- _ => unfold labels_of in H
  | H : wgs_set_enabled _ _ = Ok _ _ |- _ => unfold wgs_set_enabled in H
  | H : wgs_flush _ = Ok _ _ |- _ => unfold wgs_flush in H
  | H : run_backward _ _ = Ok _ _ |- _ => unfold run_backward in H
  | H : append_irecv _ _ = Ok _ _ |- _ => unfold append_irecv in H
  | H : append_isend _ _ = Ok _ _ |- _ => unfold append_isend in H
  end).

Ltac st_simpl :=
  cbn [set_mode set_halves set_chunks set_cur set_labels set_loss set_criterion
       set_comm set_wgs set_trace forward_only return_outputs num_half_ranks half_rank
       chunks cur labels loss_chunks criterion comm_ops wgs trace] in *.

Ltac bsimpl := cbn [andb orb negb xorb] in *.

Ltac bool_split :=
  repeat match goal with
  | H : context [xorb ?a ?b] |- _ =>
      let x := fresh "p" in set (x := xorb a b) in *; clearbody x; destruct x; bsimpl
  | |- context [xorb ?a ?b] =>
      let x := fresh "p" in set (x := xorb a b) in *; clearbody x; destruct x; bsimpl
  | H : context [?f ?T] |- _ =>
      match f with
      | is_first_rank => idtac | is_last_rank => idtac | is_in_second_half => idtac
      | criterion => idtac | return_outputs => idtac | forward_only => idtac
      | overlaped_forward_backward => idtac end;
      let x := fresh "b" in set (x := f T) in *; clearbody x; destruct x; bsimpl;
      try discriminate
  | |- context [?f ?T] =>
      match f with
      | is_first_rank => idtac | is_last_rank => idtac | is_in_second_half => idtac
      | criterion => idtac | return_outputs => idtac | forward_only => idtac
      | overlaped_forward_backward => idtac end;
      let x := fresh "b" in set (x := f T) in *; clearbody x; destruct x; bsimpl;
      try discriminate
  | H : true = false \/ true = false |- _ => exfalso; case H; discriminate
  end.

Ltac lo_finish :=
  let EL := fresh "EL" in let EO := fresh "EO" in
  intros [EL EO]; unfold lo_ok, loss_ok, outs_ok, ends in *;
  st_simpl;
  unfold is_last_stage, is_first_stage, second_half in *;
  bool_split;
  cbn [sel upd at0 at1 f_id b_id send_f_id send_b_id recv_f_id recv_b_id
       incr_f incr_b incr_send_f incr_send_b incr_recv_f incr_recv_b
       inp out ig og with_inp with_out with_ig with_og] in *;
  (split;
  [ try rewrite EL; try rewrite seq_S; try reflexivity
  | let Hro := fresh in let q := fresh "q" in
    intros Hro q; try discriminate Hro; specialize (EO Hro);
    let E0 := fresh "E" in let E1 := fresh "E" in
    pose proof (EO false) as E0; pose proof (EO true) as E1; cbn [sel] in E0, E1;
    destruct q;
    cbn [sel upd at0 at1 f_id b_id send_f_id send_b_id recv_f_id recv_b_id
         incr_f incr_b incr_send_f incr_send_b incr_recv_f incr_recv_b
         inp out ig og with_inp with_out with_ig with_og];
    rewrite ?E0, ?E1, ?seq_S, ?map_app; try reflexivity ]).

Section LossOrder.

Variable T : dualpipe.
Hypothesis HT : is_first_rank T = false \/ is_last_rank T = false.

Lemma fwd_lo ph : keeps (lo_ok T) (forward_compute_chunk T ph).
Proof.
  intros s [] s' Hs H. revert Hs. unfold forward_compute_chunk in H. cbv zeta in H.
  inv_ok. all: lo_finish.
Qed.

Lemma bwd_lo ph zb : keeps (lo_ok T) (backward_compute_chunk T ph zb).
Proof.
  intros s [] s' Hs H. revert Hs. unfold backward_compute_chunk in H. cbv zeta in H.
  inv_ok. all: lo_finish.
Qed.

Lemma recv_forward_lo ph : keeps (lo_ok T) (recv_forward T ph).
Proof.
  intros s [] s' Hs H. revert Hs. unfold recv_forward in H. cbv zeta in H.
  inv_ok. all: lo_finish.
Qed.

Lemma send_forward_lo ph : keeps (lo_ok T) (send_forward T ph).
Proof.
  intros s [] s' Hs H. revert Hs. unfold send_forward in H. cbv zeta in H.
  inv_ok. all: lo_finish.
Qed.

Lemma recv_backward_lo ph : keeps (lo_ok T) (recv_backward T ph).
Proof.
  intros s [] s' Hs H. revert Hs. unfold recv_backward in H. cbv zeta in H.
  inv_ok. all: lo_finish.
Qed.

Lemma send_backward_lo ph : keeps (lo_ok T) (send_backward T ph).
Proof.
  intros s [] s' Hs H. revert Hs. unfold send_backward in H. cbv zeta in H.
  inv_ok. all: lo_finish.
Qed.

Lemma commit_lo : keeps (lo_ok T) commit_and_wait_comm.
Proof.
  intros s [] s' Hs H. revert Hs. unfold commit_and_wait_comm in H.
  inv_ok. all: lo_finish.
Qed.

Lemma weight_lo : keeps (lo_ok T) weight_chunk.
Proof.
  intros s [] s' Hs H. revert Hs. unfold weight_chunk, wgs_pop, commit_and_wait_comm in H.
  inv_ok. all: lo_finish.
Qed.

Lemma fb_lo p0 p1 : keeps (lo_ok T) (forward_backward_compute_chunk T p0 p1).
Proof.
  intros s [] s' Hs H. unfold forward_backward_compute_chunk in H. cbv zeta in H.
  inv_ok.
  all: try match goal with
    | H1 : forward_compute_chunk T _ ?x = Ok _ ?y,
      H2 : backward_compute_chunk T _ _ ?y = Ok _ ?z |- _ =>
        exact (bwd_lo _ _ _ _ _ (fwd_lo _ _ _ _ Hs H1) H2)
    | H1 : forward_compute_chunk T _ ?x = Ok _ ?y |- _ =>
        exact (fwd_lo _ _ _ _ Hs H1)
    end.
  all: revert Hs; lo_finish.
Qed.

Lemma trace_lo s e : lo_ok T s -> lo_ok T (set_trace s e).
Proof. unfold lo_ok, loss_ok, outs_ok; st_simpl; auto. Qed.

Lemma run_phases_lo nh h k : keeps (lo_ok T) (run_phases T nh h k).
Proof.
  unfold run_phases, phase1, phase2, phase3, phase4, phase5, phase6, phase6_body,
    phase7, phase8, forward_chunk, backward_chunk, forward_backward_chunk, emit.
  cbv zeta.
  repeat first [ keeps_step | apply trace_lo; assumption | apply fwd_lo | apply bwd_lo
               | apply fb_lo | apply recv_forward_lo | apply send_forward_lo
               | apply recv_backward_lo | apply send_backward_lo | apply commit_lo
               | apply weight_lo ].
Qed.

End LossOrder.

Lemma prologue_lo T sh ge nc crit ro s a s' :
  step_prologue T sh ge nc crit ro s = Ok a s' -> lo_ok T s'.
Proof.
  unfold step_prologue, reset_states, wgs_clear, bind, ret, raise, modify, get.
  intros H.
  repeat match type of H with context [if ?b then _ else _] => destruct b end;
    try discriminate; injection H as _ <-;
    (split; [ unfold loss_ok, sel; cbn; repeat match goal with |- context [if ?b then _ else _] => destruct b end; reflexivity
            | intros _ [|]; reflexivity ]).
Qed.

Lemma final_f_id T K fo p : f_id (final_cursors T K fo p) = K.
Proof. unfold final_cursors; destruct fo; reflexivity. Qed.

(** X1: on a rank built by [__init__], a [step] with its preconditions
    returns; its loss is present exactly on the first and last ranks when a
    criterion is given, and lists the losses of micro-batches [0 .. num_chunks/2 - 1]
    in that order; its outputs are present exactly on the first and last
    ranks when [return_outputs] is set, and are the outputs of the same
    micro-batches, in the same order, none of them released. *)
Theorem step_exact T ge nc crit ro s :
  wf T ->
  (Z.of_nat (num_ranks T) mod 2 = 0)%Z -> (nc mod 2 = 0)%Z ->
  (Z.of_nat (num_ranks T) * 2 <= nc)%Z ->
  (ge = true -> is_first_rank T || is_last_rank T = true -> crit = true) ->
  exists s', step T true ge nc crit ro s =
    Ok ((if (is_first_rank T || is_last_rank T) && crit
         then Some (seq 0 (Z.to_nat (nc / 2))) else None),
        (if (is_first_rank T || is_last_rank T) && ro
         then Some (map Some (seq 0 (Z.to_nat (nc / 2)))) else None)) s'.
Proof.
  intros HT En Hc Hle Hcr.
  pose proof (wf_nc_pos T nc HT Hle) as Hp.
  destruct (step_result T ge nc crit ro s HT En Hp Hc Hle Hcr)
    as (s8 & E8 & R8 & Ecr & s' & Es).
  assert (HL : lo_ok T s8).
  { unfold step_phases, bind at 1 in E8.
    destruct (step_prologue T true ge nc crit ro s) as [[[nh h] k] s1|] eqn:E1;
      [|discriminate].
    assert (HT' : is_first_rank T = false \/ is_last_rank T = false).
    { destruct (is_first_rank T) eqn:F; [right; exact (wf_not_both T HT F)|left; reflexivity]. }
    exact (run_phases_lo T HT' nh h k s1 tt s8 (prologue_lo _ _ _ _ _ _ _ _ _ E1) E8). }
  destruct HL as [HLo HOu]. destruct R8 as (_ & Ero & Ecur & _).
  exists s'. rewrite Es. unfold loss_ok, ends in HLo. rewrite Ecr, Ecur in HLo.
  cbn [sel] in HLo.
  f_equal. f_equal.
  - destruct (is_first_rank T || is_last_rank T), crit; cbn [andb] in *; try reflexivity.
    rewrite HLo. destruct (is_first_rank T); cbn; rewrite final_f_id; reflexivity.
  - destruct (is_first_rank T || is_last_rank T), ro eqn:R; cbn [andb]; try reflexivity.
    unfold gather. rewrite (HOu Ero), Ecur. destruct (is_first_rank T); cbn; rewrite final_f_id; reflexivity.
Qed.

Lemma step_exact_witness :
  wf (demo_rank 4 3) /\
  exists s', step (demo_rank 4 3) true true 8 true true fresh =
    Ok ((if (is_first_rank (demo_rank 4 3) || is_last_rank (demo_rank 4 3)) && true
         then Some (seq 0 (Z.to_nat (8 / 2))) else None),
        (if (is_first_rank (demo_rank 4 3) || is_last_rank (demo_rank 4 3)) && true
         then Some (map Some (seq 0 (Z.to_nat (8 / 2)))) else None)) s'.
Proof.
  assert (HT : wf (demo_rank 4 3)) by (vm_compute; repeat split; lia).
  split; [exact HT|].
  apply (step_exact (demo_rank 4 3) true 8 true true fresh HT);
    vm_compute; try reflexivity; try discriminate; auto.
Defined.

Lemma buffers_released_witness :
  wf (demo_rank 4 0) /\
  exists s8, step_phases (demo_rank 4 0) true true 8 true false fresh = Ok tt s8 /\
    forall p, let q := sel p (chunks s8) in
    length (inp q) = Z.to_nat (8 / 2) /\ Forall (fun x => x = None) (inp q) /\
    (true = true ->
       Forall (fun x => x = None) (og q) /\
       (false = false -> Forall (fun x => x = None) (out q)) /\
       (is_first_stage (demo_rank 4 0) p = false -> Forall (fun x => x = None) (ig q)) /\
       (is_first_stage (demo_rank 4 0) p = true ->
          length (ig q) = Z.to_nat (8 / 2) /\ Forall (fun x => x <> None) (ig q))).
Proof.
  assert (HT : wf (demo_rank 4 0)) by (vm_compute; repeat split; lia).
  split; [exact HT|].
  apply (buffers_released (demo_rank 4 0) true 8 true false fresh HT);
    vm_compute; try reflexivity; try discriminate; auto.
Defined.

Lemma step_error_iff_witness :
  wf (demo_rank 4 1) /\
  ((exists e s', step (demo_rank 4 1) true true 6 true false fresh = Err e s') <->
   bad_call (demo_rank 4 1) true true 6 true) /\
  (forall e s', step (demo_rank 4 1) true true 6 true false fresh = Err e s' ->
     In e [AssertShapes; AssertRanks; AssertChunks; AssertCriterion]).
Proof.
  assert (HT : wf (demo_rank 4 1)) by (vm_compute; repeat split; lia).
  split; [exact HT|].
  exact (step_error_iff (demo_rank 4 1) true true 6 true false fresh HT).
Defined.

Lemma init_neighbours_witness :
  perm_ok 4 [2; 0; 3; 1] /\
  exists T, init 0 0 (fun _ => true) 4 1 (Some [2; 0; 3; 1]) = Some T /\
    (forall i, prev_rank T = Some i <->
       0 < rank T /\ nth_error [2; 0; 3; 1] i = Some (rank T - 1)) /\
    (forall i, next_rank T = Some i <-> nth_error [2; 0; 3; 1] i = Some (rank T + 1)).
Proof.
  assert (HP : perm_ok 4 [2; 0; 3; 1]).
  { split; [reflexivity|split].
    - repeat constructor; cbn; intuition congruence.
    - repeat constructor; lia. }
  split; [exact HP|].
  assert (HT : init 0 0 (fun _ => true) 4 1 (Some [2; 0; 3; 1]) =
               Some (match init 0 0 (fun _ => true) 4 1 (Some [2; 0; 3; 1]) with
                     | Some T => T | None => demo_rank 4 1 end))
    by (vm_compute; reflexivity).
  eexists. split; [exact HT|].
  destruct (init_neighbours 0 0 (fun _ => true) 4 1 (Some [2; 0; 3; 1]) _ HP HT)
    as (_ & Hp & Hn & _).
  split; [exact Hp|exact Hn].
Defined.

(** X6: a rank built by [__init__] from a permutation [rank_mapping] of a
    group of at least two ranks has flags that agree with its logical rank
    ([wf]) and a neighbour on every side except the two ends ([peers_ok]):
    the preconditions on the rank that the results about [step] assume. *)
Theorem init_wf ty0 ty1 ha n g m T :
  2 <= n ->
  perm_ok n (match m with None => seq 0 n | Some l => l end) ->
  init ty0 ty1 ha n g m = Some T ->
  wf T /\ peers_ok T.
Proof.
  intros H2 HP HT.
  destruct (init_topology _ _ _ _ _ _ _ HP HT)
    as (Hn & Hr & _ & _ & _ & Hf & Hl & Hs & Hm & _).
  split; [|exact (init_peers_ok _ _ _ _ _ _ _ HP HT)].
  unfold wf. rewrite Hn. repeat split; auto; lia.
Qed.

Lemma init_wf_witness :
  2 <= 4 /\ perm_ok 4 (seq 0 4) /\
  init 0 0 (fun _ => true) 4 2 None = Some (demo_rank 4 2) /\
  wf (demo_rank 4 2) /\ peers_ok (demo_rank 4 2).
Proof.
  assert (HT : init 0 0 (fun _ => true) 4 2 None = Some (demo_rank 4 2))
    by (vm_compute; reflexivity).
  split; [lia|]. split; [exact (perm_seq 4)|]. split; [exact HT|].
  exact (init_wf 0 0 (fun _ => true) 4 2 None _ ltac:(lia) (perm_seq 4) HT).
Defined.
